(** * Presence and room synchronisation of the metaverse app

    A shallow embedding of the Socket.IO event router of
    [backend/src/server.ts] (Registry [connectedUsers], Room Index [rooms],
    per-connection handlers, inactivity sweep) and of the [userLeft] /
    [userJoined] reducers of the client store, followed by the properties
    of the specification that concern them.

    Conventions of the embedding:
    - a JavaScript string is the list of its UTF-16 code units;
    - a JavaScript number is an IEEE 754 binary64 float ([PrimFloat]);
      clock readings ([Date.now()]) are integers of milliseconds in [Z];
    - payloads typed [any] in the source are values of [JsVal];
    - a [Map] is a [gmap], a [Set] a [gset]; the iteration order of the
      source (insertion order) is not represented, and no statement below
      depends on it;
    - every handler receives one clock reading [now], which stands for all
      the [Date.now()] calls made while it runs. *)

From Stdlib Require Import ZArith List String Ascii Floats Lia DecimalString.
From stdpp Require Import base gmap sets list strings.

Set Warnings "-register-all,-clear-no-such-hyp".
Open Scope Z_scope.

(** ** JavaScript values *)

Module Js.

Abbreviation jsstring := (list N).

(** The code units of an ASCII literal of the source. *)
Definition u (s : string) : jsstring :=
  List.map N_of_ascii (list_ascii_of_string s).

Inductive JsVal : Type :=
| JUndefined
| JNull
| JBool (b : bool)
| JNum (f : float)
| JStr (s : jsstring)
| JArr (items : list JsVal)
| JObj (fields : list (string * JsVal)).

Definition typeof (v : JsVal) : string :=
  match v with
  | JUndefined => "undefined"
  | JNull => "object"
  | JBool _ => "boolean"
  | JNum _ => "number"
  | JStr _ => "string"
  | JArr _ => "object"
  | JObj _ => "object"
  end.

(** ToBoolean: [undefined], [null], [false], [0], [-0], [NaN] and the empty
    string are falsy. *)
Definition truthy (v : JsVal) : bool :=
  match v with
  | JUndefined => false
  | JNull => false
  | JBool b => b
  | JNum f => negb (PrimFloat.is_zero f || PrimFloat.is_nan f)
  | JStr s => negb (Nat.eqb (length s) 0)
  | JArr _ => true
  | JObj _ => true
  end.

Fixpoint assoc (k : string) (fields : list (string * JsVal)) : JsVal :=
  match fields with
  | [] => JUndefined
  | (k', v) :: rest => if String.eqb k k' then v else assoc k rest
  end.

(** [v.k] for a [v] that is neither [undefined] nor [null]: own property
    of an object, [undefined] otherwise (none of the names read by the
    source is a built-in property of a string, number, boolean or array). *)
Definition prop (v : JsVal) (k : string) : JsVal :=
  match v with
  | JObj fields => assoc k fields
  | _ => JUndefined
  end.

(** [v.k] in general: reading a property of [undefined] or [null] throws a
    TypeError, rendered as [None]. *)
Definition prop_throw (v : JsVal) (k : string) : option JsVal :=
  match v with
  | JUndefined => None
  | JNull => None
  | _ => Some (prop v k)
  end.

(** [a || b] on values. *)
Definition or_else (a b : JsVal) : JsVal := if truthy a then a else b.

(** *** Strings *)

(** WhiteSpace and LineTerminator code units, the ones [trim] removes. *)
Definition isWhiteSpace (c : N) : bool :=
  ((c =? 0x9) || (c =? 0xA) || (c =? 0xB) || (c =? 0xC) || (c =? 0xD)
   || (c =? 0x20) || (c =? 0xA0) || (c =? 0x1680)
   || ((0x2000 <=? c) && (c <=? 0x200A))
   || (c =? 0x2028) || (c =? 0x2029) || (c =? 0x202F) || (c =? 0x205F)
   || (c =? 0x3000) || (c =? 0xFEFF))%N.

Fixpoint trimStart (s : jsstring) : jsstring :=
  match s with
  | [] => []
  | c :: rest => if isWhiteSpace c then trimStart rest else s
  end.

Definition trimEnd (s : jsstring) : jsstring := rev (trimStart (rev s)).

Definition trim (s : jsstring) : jsstring := trimEnd (trimStart s).

Definition lt_sign : N := 60.   (* '<' *)
Definition gt_sign : N := 62.   (* '>' *)

(** [s.replace(/[<>]/g, '')] *)
Definition strip_angle (s : jsstring) : jsstring :=
  List.filter (fun c => negb ((c =? lt_sign) || (c =? gt_sign))%N) s.

(** [/^#[0-9A-F]{6}$/i.test(s)]: with the [i] flag and no [u] flag a code
    unit matches the class exactly when it is an ASCII hexadecimal digit
    of either case. *)
Definition isHexDigit (c : N) : bool :=
  (((48 <=? c) && (c <=? 57)) || ((65 <=? c) && (c <=? 70))
   || ((97 <=? c) && (c <=? 102)))%N.

Definition isHexColor (s : jsstring) : bool :=
  match s with
  | h :: digits =>
      (h =? 35)%N && Nat.eqb (length digits) 6 && forallb isHexDigit digits
  | [] => false
  end.

Definition string_of_Z (z : Z) : jsstring := u (NilZero.string_of_int (Z.to_int z)).

(** *** Numbers *)

Definition isNaN (x : float) : bool := PrimFloat.is_nan x.
Definition isFinite (x : float) : bool :=
  negb (PrimFloat.is_nan x) && negb (PrimFloat.is_infinity x).
Definition Math_abs (x : float) : float := PrimFloat.abs x.
Definition Math_PI : float := 0x1.921fb54442d18p+1%float.
Definition num_le (x y : float) : bool := PrimFloat.leb x y.

End Js.

Import Js.

(** ** The server: [backend/src/server.ts] *)

Module Server.

Module CONFIG.
Definition MAX_CONNECTIONS_PER_IP : Z := 10.
Definition MAX_MESSAGE_LENGTH : nat := 1000.
Definition MAX_USERNAME_LENGTH : nat := 50.
Definition MAX_ROOM_NAME_LENGTH : nat := 100.
Definition POSITION_UPDATE_INTERVAL : Z := 100.
End CONFIG.

(** *** Input validation and sanitization helpers *)

Definition sanitizeString (input : jsstring) : jsstring :=
  strip_angle (trim input).

Definition validatePosition (position : JsVal) : bool :=
  if negb (truthy position) || negb (String.eqb (typeof position) "object")
  then false
  else
    match prop position "x", prop position "y",
          prop position "z", prop position "rotation" with
    | JNum x, JNum y, JNum z, JNum rotation =>
        negb (isNaN x) && isFinite x &&
        negb (isNaN y) && isFinite y &&
        negb (isNaN z) && isFinite z &&
        negb (isNaN rotation) && isFinite rotation &&
        num_le (Math_abs x) 1000 && num_le (Math_abs y) 1000 &&
        num_le (Math_abs z) 1000 &&
        num_le (Math_abs rotation) (Math_PI * 2)
    | _, _, _, _ => false
    end.

Definition validateMessage (message : JsVal) : bool :=
  match message with
  | JStr m =>
      if negb (truthy message) then false
      else
        let sanitized := sanitizeString m in
        (0 <? length sanitized)%nat
        && (length sanitized <=? CONFIG.MAX_MESSAGE_LENGTH)%nat
  | _ => false
  end.

Definition validateUserData (userData : JsVal) : bool :=
  if negb (truthy userData) || negb (String.eqb (typeof userData) "object")
  then false
  else
    match prop userData "username" with
    | JStr username =>
        if negb (truthy (JStr username)) then false
        else
          let sanitizedUsername := sanitizeString username in
          (0 <? length sanitizedUsername)%nat
          && (length sanitizedUsername <=? CONFIG.MAX_USERNAME_LENGTH)%nat
    | _ => false
    end.

Definition validateRoomId (roomId : JsVal) : bool :=
  match roomId with
  | JStr r =>
      if negb (truthy roomId) then false
      else
        let sanitized := sanitizeString r in
        (0 <? length sanitized)%nat
        && (length sanitized <=? CONFIG.MAX_ROOM_NAME_LENGTH)%nat
  | _ => false
  end.

(** *** State *)

(** A connection identity ([socket.id]). *)
Abbreviation sid := (list N).

(** [interface UserData] *)
Record UserData : Type := mkUserData {
  id : sid;
  username : jsstring;
  avatar : JsVal;
  position : JsVal;
  room : JsVal;
  lastActivity : Z;
  connectionCount : Z;
  isActive : bool
}.

Definition with_lastActivity (t : Z) (d : UserData) : UserData :=
  mkUserData (id d) (username d) (avatar d) (position d) (room d) t
             (connectionCount d) (isActive d).
Definition with_room (r : JsVal) (d : UserData) : UserData :=
  mkUserData (id d) (username d) (avatar d) (position d) r (lastActivity d)
             (connectionCount d) (isActive d).
Definition with_position (p : JsVal) (d : UserData) : UserData :=
  mkUserData (id d) (username d) (avatar d) p (room d) (lastActivity d)
             (connectionCount d) (isActive d).
Definition with_avatar (a : JsVal) (d : UserData) : UserData :=
  mkUserData (id d) (username d) a (position d) (room d) (lastActivity d)
             (connectionCount d) (isActive d).

(** What the closure of one [io.on('connection', ...)] call owns:
    [socket.handshake.address], the four fields of [socket.data] (all
    [undefined] at first) and the [lastMoveTime] variable. *)
Record Socket : Type := mkSocket {
  address : jsstring;
  data_username : JsVal;
  data_avatar : JsVal;
  data_position : JsVal;
  currentRoom : JsVal;
  lastMoveTime : Z
}.

Definition newSocket (clientIP : jsstring) : Socket :=
  mkSocket clientIP JUndefined JUndefined JUndefined JUndefined 0.

Definition with_lastMoveTime (t : Z) (k : Socket) : Socket :=
  mkSocket (address k) (data_username k) (data_avatar k) (data_position k)
           (currentRoom k) t.
Definition with_currentRoom (r : JsVal) (k : Socket) : Socket :=
  mkSocket (address k) (data_username k) (data_avatar k) (data_position k)
           r (lastMoveTime k).
Definition with_data_position (p : JsVal) (k : Socket) : Socket :=
  mkSocket (address k) (data_username k) (data_avatar k) p
           (currentRoom k) (lastMoveTime k).
Definition with_data_avatar (a : JsVal) (k : Socket) : Socket :=
  mkSocket (address k) (data_username k) a (data_position k)
           (currentRoom k) (lastMoveTime k).

(** The three module-level maps of the source, the live connections, and
    the room membership kept by Socket.IO itself ([socket.join] /
    [socket.leave]), which decides who receives a room broadcast. *)
Record State : Type := mkState {
  connectedUsers : gmap sid UserData;
  rooms : gmap jsstring (gset sid);
  ipConnections : gmap jsstring Z;
  sockets : gmap sid Socket;
  adapter : gmap jsstring (gset sid)
}.

Definition initial : State := mkState ∅ ∅ ∅ ∅ ∅.

Definition set_connectedUsers (f : gmap sid UserData -> gmap sid UserData)
    (st : State) : State :=
  mkState (f (connectedUsers st)) (rooms st) (ipConnections st) (sockets st)
          (adapter st).
Definition set_rooms (f : gmap jsstring (gset sid) -> gmap jsstring (gset sid))
    (st : State) : State :=
  mkState (connectedUsers st) (f (rooms st)) (ipConnections st) (sockets st)
          (adapter st).
Definition set_ipConnections (f : gmap jsstring Z -> gmap jsstring Z)
    (st : State) : State :=
  mkState (connectedUsers st) (rooms st) (f (ipConnections st)) (sockets st)
          (adapter st).
Definition set_sockets (f : gmap sid Socket -> gmap sid Socket)
    (st : State) : State :=
  mkState (connectedUsers st) (rooms st) (ipConnections st) (f (sockets st))
          (adapter st).
Definition set_adapter (f : gmap jsstring (gset sid) -> gmap jsstring (gset sid))
    (st : State) : State :=
  mkState (connectedUsers st) (rooms st) (ipConnections st) (sockets st)
          (f (adapter st)).

(** [rooms.get(key)] for a key of any type: the keys of [rooms] are
    strings, so any other value finds nothing. *)
Definition rooms_get (st : State) (key : JsVal) : option (gset sid) :=
  match key with
  | JStr r => rooms st !! r
  | _ => None
  end.

(** The members of a room in the Room Index, empty when there is no entry. *)
Definition members (st : State) (r : jsstring) : gset sid :=
  default ∅ (rooms st !! r).

(** Socket.IO membership. *)
Definition joined (st : State) (r : jsstring) : gset sid :=
  default ∅ (adapter st !! r).

Definition socket_join (s : sid) (r : jsstring) (st : State) : State :=
  set_adapter (fun a => <[r := joined st r ∪ {[s]}]> a) st.

Definition socket_leave (s : sid) (key : JsVal) (st : State) : State :=
  match key with
  | JStr r => set_adapter (fun a => <[r := joined st r ∖ {[s]}]> a) st
  | _ => st
  end.

Definition socket_leaveAll (s : sid) (st : State) : State :=
  set_adapter (fun a => (fun members => members ∖ {[s]}) <$> a) st.

(** *** Outbound events *)

Record ChatMessage : Type := mkChatMessage {
  msg_id : jsstring;
  msg_userId : sid;
  msg_username : JsVal;
  msg_message : jsstring;
  msg_timestamp : Z;
  msg_type : JsVal
}.

Inductive ServerEvent : Type :=
| EvError (reason : string)
| EvJoinRoom (roomId : JsVal)
| EvUserJoined (userId : sid) (name avatar_ position_ : JsVal) (room_ : jsstring)
| EvRoomUsers (roomUsers : list UserData)
| EvUserMoved (userId : sid) (position_ : JsVal)
| EvMessageReceived (message : ChatMessage)
| EvAvatarUpdated (userId : sid) (avatar_ : JsVal)
| EvUserLeft (userId : sid).

(** [socket.emit], [socket.to(room).emit] and [io.to(room).emit]. *)
Inductive Target : Type :=
| ToSocket (s : sid)
| SocketTo (s : sid) (room_ : JsVal)
| IoTo (room_ : JsVal).

Definition Out : Type := Target * ServerEvent.

(** The rooms that the argument of [to] names. [to] takes a room or an
    array of rooms and collects them in a set; the adapter looks each of
    them up in its map of rooms, whose keys are strings (the names passed
    to [socket.join], and the socket ids), so that only strings count. *)
Definition roomsNamed (room_ : JsVal) : list jsstring :=
  match room_ with
  | JStr r => [r]
  | JArr items =>
      omap (fun item => match item with JStr r => Some r | _ => None end) items
  | _ => []
  end.

(** The connections a broadcast to [room_] is offered to: those joined to
    one of the rooms named; when the set of rooms is empty, which an empty
    array makes it, every open connection. *)
Definition addressed (st : State) (room_ : JsVal) : gset sid :=
  match room_ with
  | JStr r => joined st r
  | JArr [] => dom (sockets st)
  | _ => ⋃ (joined st <$> roomsNamed room_)
  end.

(** The connections an emission reaches, by Socket.IO's rules.
    [socket.emit] reaches the socket itself. [io.to(room)] reaches the
    connections addressed. [socket.to(room)] reaches them except the ones
    joined to the room named by the sender's id: Socket.IO joins every
    socket to that room when it connects, and it holds the sender until
    it leaves, together with whoever else joined a room of that name. No
    handler changes the Socket.IO membership after it has emitted, so the
    state a handler returns is the one its emissions were resolved in. *)
Definition recipients (st : State) (t : Target) : gset sid :=
  match t with
  | ToSocket s => {[s]}
  | SocketTo s room_ => addressed st room_ ∖ joined st s
  | IoTo room_ => addressed st room_
  end.

Definition defaultPosition : JsVal :=
  JObj [("x", JNum 0); ("y", JNum 0); ("z", JNum 0); ("rotation", JNum 0)]%string.

Definition defaultAvatar : JsVal :=
  JObj [("id", JStr (u "default")); ("name", JStr (u "Default"));
        ("model", JStr (u "default")); ("color", JStr (u "#3b82f6"));
        ("accessories", JArr []); ("position", defaultPosition)]%string.

(** *** Connection management *)

(** The block that the sweep, [joinRoom] and [disconnect] each contain:
    [const roomUsers = rooms.get(key); if (roomUsers) { roomUsers.delete(s);
    if (roomUsers.size === 0) rooms.delete(key); }], first on the map, then
    on the state for a key of any type. *)
Definition removeMember (s : sid) (r : jsstring) (m : gmap jsstring (gset sid))
  : gmap jsstring (gset sid) :=
  match m !! r with
  | Some roomUsers =>
      let roomUsers' := roomUsers ∖ {[s]} in
      if Nat.eqb (size roomUsers') 0 then delete r m else <[r := roomUsers']> m
  | None => m
  end.

Definition removeFromRoom (s : sid) (key : JsVal) (st : State) : State :=
  match key with
  | JStr r => set_rooms (removeMember s r) st
  | _ => st
  end.

Definition timeout : Z := 5 * 60 * 1000.

(** One iteration of the loop of [cleanupInactiveUsers]. *)
Definition cleanupUser (now : Z) (st : State) (entry : sid * UserData) : State :=
  let '(userId, userData) := entry in
  if now - lastActivity userData >? timeout then
    let st1 := set_connectedUsers (fun m => delete userId m) st in
    if truthy (room userData)
    then removeFromRoom userId (room userData) st1
    else st1
  else st.

(** The loop runs over the entries of [connectedUsers]; an iteration
    deletes at most the entry it is visiting and changes no record, so the
    entries visited are those present when the sweep starts. *)
Definition cleanupInactiveUsers (now : Z) (st : State) : State :=
  foldl (cleanupUser now) st (map_to_list (connectedUsers st)).

(** *** Connection handling *)

Definition set_socket (s : sid) (k : Socket) (st : State) : State :=
  set_sockets (fun m => <[s := k]> m) st.

(** [io.on('connection', ...)] up to the registration of the handlers.
    Socket.IO has put the new socket in the room named by its own id. A
    connection over the per-address limit is closed before any handler is
    registered and leaves no trace. *)
Definition onConnection (s : sid) (clientIP : jsstring) (st : State) : State :=
  match sockets st !! s with
  | Some _ => st
  | None =>
      let currentConnections := default 0 (ipConnections st !! clientIP) in
      if currentConnections >=? CONFIG.MAX_CONNECTIONS_PER_IP then st
      else
        let st := set_ipConnections
                    (fun m => <[clientIP := currentConnections + 1]> m) st in
        let st := set_socket s (newSocket clientIP) st in
        socket_join s s st
  end.

Definition updateActivity (s : sid) (now : Z) (st : State) : State :=
  match connectedUsers st !! s with
  | Some userData =>
      set_connectedUsers (fun m => <[s := with_lastActivity now userData]> m) st
  | None => st
  end.

(** The snapshot sent to a joining connection. The source lists the
    records in the insertion order of the room's [Set]; the state keeps a
    room as a set of ids, so the order of this list is the model's, and
    statements speak of the snapshot up to order. *)
Definition roomUsersOf (s : sid) (r : jsstring) (st : State) : list UserData :=
  omap (fun userId => connectedUsers st !! userId)
       (filter (fun userId => userId ≠ s) (elements (members st r))).

Definition joinRoom (s : sid) (now : Z) (roomId : JsVal) (st : State)
  : State * list Out :=
  match sockets st !! s with
  | None => (st, [])
  | Some k =>
      let st := updateActivity s now st in
      if negb (validateRoomId roomId)
      then (st, [(ToSocket s, EvError "Invalid room ID")])
      else
        match roomId with
        | JStr r =>
            let sanitizedRoomId := sanitizeString r in
            (* Leave current room *)
            let st :=
              if truthy (currentRoom k)
              then removeFromRoom s (currentRoom k)
                     (socket_leave s (currentRoom k) st)
              else st in
            (* Join new room *)
            let st := socket_join s sanitizedRoomId st in
            let st := set_socket s (with_currentRoom (JStr sanitizedRoomId) k) st in
            (* Add to room tracking *)
            let st := set_rooms
                        (fun m => <[sanitizedRoomId :=
                                      default ∅ (m !! sanitizedRoomId) ∪ {[s]}]> m)
                        st in
            (* Update user data *)
            let st :=
              match connectedUsers st !! s with
              | Some userData =>
                  set_connectedUsers
                    (fun m => <[s := with_lastActivity now
                                       (with_room (JStr sanitizedRoomId) userData)]> m)
                    st
              | None => st
              end in
            (* Notify other users in the room, then send the current room
               users to the joining user *)
            (st,
             [ (SocketTo s (JStr sanitizedRoomId),
                EvUserJoined s
                  (or_else (data_username k) (JStr (u "Anonymous")))
                  (or_else (data_avatar k) defaultAvatar)
                  (or_else (data_position k) defaultPosition)
                  sanitizedRoomId);
               (ToSocket s, EvRoomUsers (roomUsersOf s sanitizedRoomId st)) ])
        | _ => (st, [])   (* not reached: a valid room id is a string *)
        end
  end.

Definition move (s : sid) (now : Z) (position_ : JsVal) (st : State)
  : State * list Out :=
  match sockets st !! s with
  | None => (st, [])
  | Some k =>
      let st := updateActivity s now st in
      (* Rate limit movement updates *)
      if now - lastMoveTime k <? CONFIG.POSITION_UPDATE_INTERVAL
      then (st, [])
      else
        let k := with_lastMoveTime now k in
        let st := set_socket s k st in
        if negb (validatePosition position_)
        then (st, [(ToSocket s, EvError "Invalid position data")])
        else if truthy (currentRoom k) then
          let st := set_socket s (with_data_position position_ k) st in
          let st :=
            match connectedUsers st !! s with
            | Some userData =>
                set_connectedUsers
                  (fun m => <[s := with_lastActivity now
                                     (with_position position_ userData)]> m)
                  st
            | None => st
            end in
          (st, [(SocketTo s (currentRoom k), EvUserMoved s position_)])
        else (st, [])
  end.

(** [v === 'lit'] *)
Definition is_literal (v : JsVal) (lit : string) : bool :=
  match v with
  | JStr s => bool_decide (s = u lit)
  | _ => false
  end.

(** [rnd] is the value of [Math.random().toString(36).substr(2, 9)]. *)
Definition sendMessage (s : sid) (now : Z) (rnd : jsstring) (data : JsVal)
    (st : State) : State * list Out :=
  match sockets st !! s with
  | None => (st, [])
  | Some k =>
      let st := updateActivity s now st in
      match prop_throw data "message" with
      | None => (st, [(ToSocket s, EvError "Failed to send message")])
      | Some message_ =>
          if negb (validateMessage message_)
          then (st, [(ToSocket s, EvError "Invalid message")])
          else if truthy (currentRoom k) then
            match message_ with
            | JStr m =>
                let sanitizedMessage := sanitizeString m in
                let type := prop data "type" in
                let message :=
                  mkChatMessage
                    (u "msg_" ++ string_of_Z now ++ u "_" ++ rnd)
                    s
                    (or_else (data_username k) (JStr (u "Anonymous")))
                    sanitizedMessage
                    now
                    (if is_literal type "system" || is_literal type "private"
                     then type else JStr (u "chat")) in
                (st, [(IoTo (currentRoom k), EvMessageReceived message)])
            | _ => (st, [])   (* not reached: a valid message is a string *)
            end
          else (st, [])
      end
  end.

Definition is_string (v : JsVal) : bool :=
  match v with JStr _ => true | _ => false end.

(** The object literal [validAvatar] of the [updateAvatar] handler. *)
Definition validAvatarOf (avatar_ : JsVal) : JsVal :=
  JObj [ ("id", match prop avatar_ "id" with
                | JStr x => JStr (sanitizeString x)
                | _ => JStr (u "default")
                end);
         ("name", match prop avatar_ "name" with
                  | JStr x => JStr (sanitizeString x)
                  | _ => JStr (u "Default")
                  end);
         ("model", match prop avatar_ "model" with
                   | JStr x => JStr (sanitizeString x)
                   | _ => JStr (u "default")
                   end);
         ("color", match prop avatar_ "color" with
                   | JStr c => if isHexColor c then JStr c else JStr (u "#3b82f6")
                   | _ => JStr (u "#3b82f6")
                   end);
         ("accessories", match prop avatar_ "accessories" with
                         | JArr items => JArr (List.filter is_string items)
                         | _ => JArr []
                         end);
         ("position", if validatePosition (prop avatar_ "position")
                      then prop avatar_ "position"
                      else defaultPosition) ]%string.

Definition updateAvatar (s : sid) (now : Z) (avatar_ : JsVal) (st : State)
  : State * list Out :=
  match sockets st !! s with
  | None => (st, [])
  | Some k =>
      let st := updateActivity s now st in
      if negb (truthy avatar_) || negb (String.eqb (typeof avatar_) "object")
      then (st, [(ToSocket s, EvError "Invalid avatar data")])
      else
        let validAvatar := validAvatarOf avatar_ in
        let st := set_socket s (with_data_avatar validAvatar k) st in
        (* Update user data *)
        let st :=
          match connectedUsers st !! s with
          | Some userData =>
              set_connectedUsers
                (fun m => <[s := with_lastActivity now
                                   (with_avatar validAvatar userData)]> m)
                st
          | None => st
          end in
        if truthy (currentRoom k)
        then (st, [(SocketTo s (currentRoom k), EvAvatarUpdated s validAvatar)])
        else (st, [])
  end.

Definition initializeUser (s : sid) (now : Z) (userData : JsVal) (st : State)
  : State * list Out :=
  match sockets st !! s with
  | None => (st, [])
  | Some k =>
      let st := updateActivity s now st in
      if negb (validateUserData userData)
      then (st, [(ToSocket s, EvError "Invalid user data")])
      else
        match prop userData "username" with
        | JStr name =>
            let sanitizedUsername := sanitizeString name in
            let k' :=
              mkSocket (address k)
                (JStr sanitizedUsername)
                (or_else (prop userData "avatar") defaultAvatar)
                (if validatePosition (prop userData "position")
                 then prop userData "position" else defaultPosition)
                (or_else (prop userData "room") (JStr (u "lobby")))
                (lastMoveTime k) in
            let st := set_socket s k' st in
            (* Store user data with enhanced tracking *)
            let st :=
              set_connectedUsers
                (fun m => <[s := mkUserData s sanitizedUsername (data_avatar k')
                                   (data_position k') (currentRoom k') now 1 true]> m)
                st in
            (* Join default room *)
            (st, [(ToSocket s, EvJoinRoom (currentRoom k'))])
        | _ => (st, [])   (* not reached: a valid username is a string *)
        end
  end.

(** The [disconnect] handler. When Socket.IO runs it the socket has
    already left every room it had joined; afterwards the connection is
    gone. *)
Definition disconnect (s : sid) (st : State) : State * list Out :=
  match sockets st !! s with
  | None => (st, [])
  | Some k =>
      let st := socket_leaveAll s st in
      (* Update connection count for IP *)
      let clientIP := address k in
      let currentConnections := default 0 (ipConnections st !! clientIP) in
      let st :=
        if currentConnections >? 0 then
          let st := set_ipConnections
                      (fun m => <[clientIP := currentConnections - 1]> m) st in
          if currentConnections - 1 =? 0
          then set_ipConnections (fun m => delete clientIP m) st
          else st
        else st in
      (* Remove from room tracking *)
      let '(st, out) :=
        if truthy (currentRoom k)
        then (removeFromRoom s (currentRoom k) st,
              [(SocketTo s (currentRoom k), EvUserLeft s)])
        else (st, []) in
      (* Remove from connected users *)
      let st := set_connectedUsers (fun m => delete s m) st in
      (set_sockets (fun m => delete s m) st, out)
  end.

(** *** The event loop *)

Inductive Event : Type :=
| Connection (s : sid) (clientIP : jsstring)
| JoinRoom (s : sid) (roomId : JsVal)
| Move (s : sid) (position_ : JsVal)
| SendMessage (s : sid) (rnd : jsstring) (data : JsVal)
| UpdateAvatar (s : sid) (avatar_ : JsVal)
| InitializeUser (s : sid) (userData : JsVal)
| Disconnect (s : sid)
| CleanupTick.

(** One event, handled at clock reading [now]. *)
Definition step (now : Z) (e : Event) (st : State) : State * list Out :=
  match e with
  | Connection s clientIP => (onConnection s clientIP st, [])
  | JoinRoom s roomId => joinRoom s now roomId st
  | Move s position_ => move s now position_ st
  | SendMessage s rnd data => sendMessage s now rnd data st
  | UpdateAvatar s avatar_ => updateAvatar s now avatar_ st
  | InitializeUser s userData => initializeUser s now userData st
  | Disconnect s => disconnect s st
  | CleanupTick => (cleanupInactiveUsers now st, [])
  end.

(** A run of timestamped events; the state and everything emitted. *)
Fixpoint run (trace : list (Z * Event)) (st : State) : State * list Out :=
  match trace with
  | [] => (st, [])
  | (now, e) :: rest =>
      let '(st1, out1) := step now e st in
      let '(st2, out2) := run rest st1 in
      (st2, out1 ++ out2)
  end.

(** *** The health endpoint *)

(** The figures of [GET /health] that are read from the state:
    [connectedUsers.size], [rooms.size] and the sum of the values of
    [ipConnections] (the fold is over an addition, so the order of the
    values plays no part). *)
Record HealthData : Type := mkHealthData {
  health_connectedUsers : nat;
  health_activeRooms : nat;
  health_totalConnections : Z
}.

Definition health (st : State) : HealthData :=
  mkHealthData
    (size (connectedUsers st))
    (size (rooms st))
    (map_fold (fun _ count sum => sum + count) 0 (ipConnections st)).

End Server.

(** ** The client store: reducers of the inbound peer events *)

Module Client.

Definition validatePosition (position : JsVal) : bool :=
  truthy position &&
  match prop position "x", prop position "y",
        prop position "z", prop position "rotation" with
  | JNum x, JNum y, JNum z, JNum rotation =>
      negb (isNaN x) && isFinite x &&
      negb (isNaN y) && isFinite y &&
      negb (isNaN z) && isFinite z &&
      negb (isNaN rotation) && isFinite rotation &&
      num_le (Math_abs x) 1000 && num_le (Math_abs y) 1000 &&
      num_le (Math_abs z) 1000 &&
      num_le (Math_abs rotation) (Math_PI * 2)
  | _, _, _, _ => false
  end.

Definition validateUser (user : JsVal) : bool :=
  truthy user &&
  match prop user "id", prop user "username" with
  | JStr _, JStr name =>
      (0 <? length (trim name))%nat && (length name <=? 50)%nat &&
      truthy (prop user "avatar") &&
      validatePosition (prop user "position")
  | _, _ => false
  end.

(** [interface WorldState]; the elements of [users] are the payloads the
    server sent, kept as received. *)
Record WorldState : Type := mkWorldState {
  users : list JsVal;
  objects : list JsVal;
  environment : JsVal
}.

(** The data fields of [MetaverseStore] (the socket handle left out). *)
Record Store : Type := mkStore {
  isConnected : bool;
  isConnecting : bool;
  connectionAttempts : Z;
  lastConnectionAttempt : Z;
  currentUser : JsVal;
  isAuthenticated : bool;
  worldState : WorldState;
  messages : list JsVal;
  isChatOpen : bool;
  isLoading : bool;
  error : option string
}.

(** [set({ worldState: { ...worldState, users: updatedUsers } })] *)
Definition set_users (updatedUsers : list JsVal) (st : Store) : Store :=
  mkStore (isConnected st) (isConnecting st) (connectionAttempts st)
          (lastConnectionAttempt st) (currentUser st) (isAuthenticated st)
          (mkWorldState updatedUsers (objects (worldState st))
                        (environment (worldState st)))
          (messages st) (isChatOpen st) (isLoading st) (error st).

(** [set({ error })] *)
Definition set_error (e : string) (st : Store) : Store :=
  mkStore (isConnected st) (isConnecting st) (connectionAttempts st)
          (lastConnectionAttempt st) (currentUser st) (isAuthenticated st)
          (worldState st) (messages st) (isChatOpen st) (isLoading st) (Some e).

(** [a === b] where [b] is a string. *)
Definition same_string (a : JsVal) (b : jsstring) : bool :=
  match a with
  | JStr x => bool_decide (x = b)
  | _ => false
  end.

(** [users.filter(user => user.id !== userId)]; [None] when the callback
    throws on an element that is [undefined] or [null]. *)
Fixpoint filterOthers (userId : jsstring) (l : list JsVal) : option (list JsVal) :=
  match l with
  | [] => Some []
  | user :: rest =>
      match prop_throw user "id" with
      | None => None
      | Some i =>
          match filterOthers userId rest with
          | None => None
          | Some rest' =>
              Some (if negb (same_string i userId) then user :: rest' else rest')
          end
      end
  end.

(** [socket.on('userLeft', ...)] *)
Definition userLeft (userId : JsVal) (st : Store) : Store :=
  match userId with
  | JStr uid =>
      match filterOthers uid (users (worldState st)) with
      | Some updatedUsers => set_users updatedUsers st
      | None => set_error "Failed to handle user leave" st
      end
  | _ => st
  end.

(** [users.findIndex(u => u.id === id)]: outer [None] when the callback
    throws, inner [None] for the result -1. *)
Fixpoint findIndex (i : jsstring) (l : list JsVal) : option (option nat) :=
  match l with
  | [] => Some None
  | x :: rest =>
      match prop_throw x "id" with
      | None => None
      | Some xi =>
          if same_string xi i then Some (Some 0%nat)
          else match findIndex i rest with
               | None => None
               | Some None => Some None
               | Some (Some n) => Some (Some (S n))
               end
      end
  end.

(** [socket.on('userJoined', ...)] *)
Definition userJoined (user : JsVal) (st : Store) : Store :=
  if negb (validateUser user) then st
  else
    match prop user "id" with
    | JStr i =>
        match findIndex i (users (worldState st)) with
        | None => set_error "Failed to handle user join" st
        | Some (Some existingUserIndex) =>
            set_users (<[existingUserIndex := user]> (users (worldState st))) st
        | Some None => set_users (users (worldState st) ++ [user]) st
        end
    | _ => st
    end.

(** *** Chat history *)

(** [s.startsWith(pat)] and [s.includes(pat)] *)
Fixpoint startsWith (pat s : jsstring) : bool :=
  match pat, s with
  | [], _ => true
  | _ :: _, [] => false
  | p :: pat', c :: s' => (p =? c)%N && startsWith pat' s'
  end.

Fixpoint includes (s pat : jsstring) : bool :=
  startsWith pat s ||
  match s with
  | [] => false
  | _ :: s' => includes s' pat
  end.

Definition validateMessage (message : JsVal) : bool :=
  match message with
  | JStr m =>
      (0 <? length (trim m))%nat && (length m <=? 1000)%nat &&
      negb (includes m (u "<script>")) && negb (includes m (u "javascript:"))
  | _ => false
  end.

(** [set({ messages })] *)
Definition set_messages (l : list JsVal) (st : Store) : Store :=
  mkStore (isConnected st) (isConnecting st) (connectionAttempts st)
          (lastConnectionAttempt st) (currentUser st) (isAuthenticated st)
          (worldState st) l (isChatOpen st) (isLoading st) (error st).

(** [l.slice(-n)]: the last [n] elements, all of them when there are fewer. *)
Definition slice_last (n : nat) (l : list JsVal) : list JsVal :=
  drop (length l - n) l.

Definition is_string (v : JsVal) : bool :=
  match v with JStr _ => true | _ => false end.

(** The guard that [addMessage] and the [messageReceived] handler share:
    [!message || typeof message.id !== 'string' ||
     !validateMessage(message.message)]. *)
Definition badMessage (message : JsVal) : bool :=
  negb (truthy message) || negb (is_string (prop message "id")) ||
  negb (validateMessage (prop message "message")).

Definition addMessage (message : JsVal) (st : Store) : Store :=
  if badMessage message then st
  else set_messages (slice_last 100 (messages st ++ [message])) st.

(** [socket.on('messageReceived', ...)] *)
Definition messageReceived (message : JsVal) (st : Store) : Store :=
  if badMessage message then st else addMessage message st.

(** *** Peer movement *)

(** The fields of [{ ...user, k: x }]: the value of an existing key is
    replaced where it stands, a new key goes to the end. *)
Fixpoint set_assoc (k : string) (x : JsVal) (fields : list (string * JsVal))
  : list (string * JsVal) :=
  match fields with
  | [] => [(k, x)]
  | (k', v) :: rest =>
      if String.eqb k k' then (k', x) :: rest else (k', v) :: set_assoc k x rest
  end.

(** [{ ...user, position }] for a [user] that is an object. *)
Definition with_position (user position : JsVal) : JsVal :=
  match user with
  | JObj fields => JObj (set_assoc "position" position fields)
  | _ => JObj [("position", position)]   (* not reached: [user.id] matched *)
  end.

(** [users.map(user => user.id === userId ? { ...user, position } : user)];
    [None] when the callback throws on an element that is [undefined] or
    [null]. *)
Fixpoint movePeer (userId : jsstring) (position : JsVal) (l : list JsVal)
  : option (list JsVal) :=
  match l with
  | [] => Some []
  | user :: rest =>
      match prop_throw user "id" with
      | None => None
      | Some i =>
          match movePeer userId position rest with
          | None => None
          | Some rest' =>
              Some ((if same_string i userId then with_position user position
                     else user) :: rest')
          end
      end
  end.

(** [socket.on('userMoved', ...)] *)
Definition userMoved (data : JsVal) (st : Store) : Store :=
  if negb (truthy data) then st
  else
    match prop data "userId" with
    | JStr userId =>
        if negb (validatePosition (prop data "position")) then st
        else
          match movePeer userId (prop data "position") (users (worldState st)) with
          | Some updatedUsers => set_users updatedUsers st
          | None => set_error "Failed to handle user movement" st
          end
    | _ => st
    end.

(** *** The stream of peer events *)

Inductive PeerEvent : Type :=
| UserJoined (user : JsVal)
| UserLeft (userId : JsVal)
| UserMoved (data : JsVal)
| MessageReceived (message : JsVal).

Definition reduce (st : Store) (e : PeerEvent) : Store :=
  match e with
  | UserJoined user => userJoined user st
  | UserLeft userId => userLeft userId st
  | UserMoved data => userMoved data st
  | MessageReceived message => messageReceived message st
  end.

Definition reduceAll (events : list PeerEvent) (st : Store) : Store :=
  foldl reduce st events.

(** *** Outbound actions *)

Module CONFIG.
Definition MESSAGE_RATE_LIMIT : Z := 1000.   (* ms between messages *)
End CONFIG.

(** In the actions below [connected] is the value of
    [socket && socket.connected]; what the action emits, if anything, is
    the last component of the result. *)



(** [sendMessage]; [lastMessageTime] is the module variable, returned
    first; the emission is a [sendMessage]. *)
Definition sendMessage (message type : JsVal) (now : Z) (connected : bool)
    (lastMessageTime : Z) (st : Store) : Z * Store * option JsVal :=
  let type := match type with JUndefined => JStr (u "chat") | _ => type end in
  match message with
  | JStr m =>
      if negb (validateMessage message)
      then (lastMessageTime, set_error "Invalid message" st, None)
      else if now - lastMessageTime <? CONFIG.MESSAGE_RATE_LIMIT
      then (lastMessageTime,
            set_error "Please wait before sending another message" st, None)
      else (now, st,
            if connected
            then Some (JObj [("message", JStr (trim m)); ("type", type)]%string)
            else None)
  | _ => (lastMessageTime, set_error "Invalid message" st, None)
  end.

(** [joinRoom]; the emission is a [joinRoom]. *)
Definition joinRoom (roomId : JsVal) (connected : bool) (st : Store)
  : Store * option JsVal :=
  match roomId with
  | JStr r =>
      if negb (truthy roomId) || Nat.eqb (length (trim r)) 0
      then (set_error "Invalid room ID" st, None)
      else (st, if connected then Some (JStr (trim r)) else None)
  | _ => (set_error "Invalid room ID" st, None)
  end.

End Client.

(** * Notions used in the statements *)

Import Server.

(** The [color] field of an avatar value. *)
Definition stored_color (a : JsVal) : JsVal := prop a "color".

(** How [validAvatar] treats one of the text fields [id], [name], [model]. *)
Definition text_field_rule (a va : JsVal) (f : string) (dflt : jsstring) : Prop :=
  (∀ x, prop a f = JStr x → prop va f = JStr (sanitizeString x)) ∧
  (is_string (prop a f) = false → prop va f = JStr dflt).

(** The sender is in room [r]: it is the room its handlers act on, and the
    connection has joined it. *)
Definition inRoom (st : State) (s : sid) (r : jsstring) : Prop :=
  ∃ k, sockets st !! s = Some k ∧ currentRoom k = JStr r ∧ r ≠ [] ∧ s ∈ joined st r.

(** No entry of a room map holds the empty set. *)
Definition rooms_nonempty (m : gmap jsstring (gset sid)) : Prop :=
  ∀ r S, m !! r = Some S → S ≠ ∅.

(** The room map a valid [joinRoom] leaves. *)
Definition roomsAfterJoin (s : sid) (k : Socket) (r' : jsstring)
    (m : gmap jsstring (gset sid)) : gmap jsstring (gset sid) :=
  let left :=
    match currentRoom k with
    | JStr c => if truthy (currentRoom k) then removeMember s c m else m
    | _ => m
    end in
  <[r' := default ∅ (left !! r') ∪ {[s]}]> left.

(** The entry of the Room Index for a room whose set of members is [S]:
    none when the set is empty. *)
Definition entryOf (S : gset sid) : option (gset sid) :=
  if decide (S = ∅) then None else Some S.

(** The value [v] is the non-empty string [q]: [if (v)] passes and
    [rooms.get(v)] looks up the room [q]. *)
Definition names (v : JsVal) (q : jsstring) : bool :=
  match v with
  | JStr c => bool_decide (c = q) && negb (Nat.eqb (length c) 0)
  | _ => false
  end.

(** The test of the sweep: the record is older than [timeout] at [now]. *)
Definition expired (now : Z) (d : UserData) : Prop :=
  timeout < now - lastActivity d.

(** The connection an event comes from. *)
Definition sender (e : Event) : option sid :=
  match e with
  | Connection _ _ => None
  | JoinRoom s _ => Some s
  | Move s _ => Some s
  | SendMessage s _ _ => Some s
  | UpdateAvatar s _ => Some s
  | InitializeUser s _ => Some s
  | Disconnect s => Some s
  | CleanupTick => None
  end.


(** A stored user name: 1 to 50 code units, none of them [<] or [>]. *)
Definition username_ok (n : jsstring) : Prop :=
  (1 ≤ length n ≤ CONFIG.MAX_USERNAME_LENGTH)%nat ∧ (lt_sign ∉ n) ∧ (gt_sign ∉ n).

(** The record [d] agrees with the [socket.data] of [k]. *)
Definition mirrors (k : Socket) (d : UserData) : Prop :=
  data_username k = JStr (username d) ∧ data_avatar k = avatar d ∧
  data_position k = position d ∧ currentRoom k = room d.

(** What holds of the record [d] stored under the key [x]. *)
Definition record_ok (st : State) (x : sid) (d : UserData) : Prop :=
  id d = x ∧ username_ok (username d) ∧
  validatePosition (position d) = true ∧ truthy (room d) = true ∧
  truthy (avatar d) = true ∧
  connectionCount d = 1 ∧ isActive d = true ∧
  ∃ k, sockets st !! x = Some k ∧ mirrors k d.

Definition registry_ok (st : State) : Prop :=
  ∀ x d, connectedUsers st !! x = Some d → record_ok st x d.

(** A field of [socket.data] is still [undefined] or satisfies [P]. *)
Definition unset_or (P : JsVal → Prop) (v : JsVal) : Prop :=
  v = JUndefined ∨ P v.

(** What holds of the [socket.data] of a connection. *)
Definition socket_ok (k : Socket) : Prop :=
  unset_or (fun v => ∃ n, v = JStr n ∧ username_ok n) (data_username k) ∧
  unset_or (fun v => truthy v = true) (data_avatar k) ∧
  unset_or (fun v => validatePosition v = true) (data_position k) ∧
  unset_or (fun v => truthy v = true) (currentRoom k).

(** A room id of the Room Index: 1 to 100 code units, no [<] or [>]. *)
Definition roomname_ok (r : jsstring) : Prop :=
  (1 ≤ length r ≤ CONFIG.MAX_ROOM_NAME_LENGTH)%nat ∧ (lt_sign ∉ r) ∧ (gt_sign ∉ r).

Definition sockets_and_rooms_ok (st : State) : Prop :=
  (∀ x k, sockets st !! x = Some k → socket_ok k) ∧
  (∀ r, is_Some (rooms st !! r) → roomname_ok r).

(** The number of open connections from the address [ip]. *)
Definition liveFrom (st : State) (ip : jsstring) : nat :=
  size (filter (fun entry => snd entry = ip) (address <$> sockets st)).

(** The counter of an address is the number of open connections from it,
    with no entry when there is none, and never more than the limit. *)
Definition ip_ok (st : State) : Prop :=
  ∀ ip,
    ipConnections st !! ip =
      (if decide (liveFrom st ip = 0%nat) then None
       else Some (Z.of_nat (liveFrom st ip))) ∧
    Z.of_nat (liveFrom st ip) <= CONFIG.MAX_CONNECTIONS_PER_IP.

(** The counters are right, and their sum is the number of open
    connections. *)
Definition total_ok (st : State) : Prop :=
  ip_ok st ∧
  health_totalConnections (health st) = Z.of_nat (size (sockets st)).

(** The ids of the peers a client knows, in order. *)
Definition peer_ids (l : list JsVal) : list JsVal :=
  (fun user => prop user "id") <$> l.

(** Every known peer passes [validateUser] and no id occurs twice. *)
Definition roster_ok (l : list JsVal) : Prop :=
  Forall (fun user => Client.validateUser user = true) l ∧ NoDup (peer_ids l).



Definition messageReceivedData (msg : ChatMessage) (timestamp : JsVal) : JsVal :=
  JObj [("id", JStr (msg_id msg)); ("userId", JStr (msg_userId msg));
        ("username", msg_username msg); ("message", JStr (msg_message msg));
        ("timestamp", timestamp); ("type", msg_type msg)]%string.

(** The string consists of [<] and [>] only; the string has a code unit
    that is neither. *)
Definition only_angles (s : jsstring) : Prop :=
  Forall (fun c => c = lt_sign ∨ c = gt_sign) s.

Definition some_text (s : jsstring) : Prop :=
  Exists (fun c => c ≠ lt_sign ∧ c ≠ gt_sign) s.


(** ** Example connections and runs *)

Definition sA : sid := u "sockA".
Definition sB : sid := u "sockB".
Definition sC : sid := u "sockC".
Definition lobby : jsstring := u "lobby".
Definition alice : JsVal := JObj [("username", JStr (u "Alice"))]%string.
Definition bob : JsVal := JObj [("username", JStr (u "Bob"))]%string.

Definition xyz (x y z rotation : float) : JsVal :=
  JObj [("x", JNum x); ("y", JNum y); ("z", JNum z);
        ("rotation", JNum rotation)]%string.

(** A fresh server on which [sockA] has connected. *)
Definition connectedA : State :=
  fst (run [(1000, Connection sA (u "10.0.0.1"))] initial).

(** The state in which [sockA] has connected, initialized as Alice and
    joined the lobby. *)
Definition aliceInLobby : State :=
  fst (run [(1000, Connection sA (u "10.0.0.1"));
            (1000, InitializeUser sA alice);
            (1000, JoinRoom sA (JStr lobby))] initial).

(** Alice and Bob, both initialized, both in the lobby. *)
Definition aliceAndBob : State :=
  fst (run [(1000, Connection sA (u "10.0.0.1"));
            (1000, InitializeUser sA alice);
            (1000, JoinRoom sA (JStr lobby));
            (1100, Connection sB (u "10.0.0.2"));
            (1100, InitializeUser sB bob);
            (1100, JoinRoom sB (JStr lobby))] initial).


(** Alice was last active at 1000 ms, Bob at 3000 ms; both are in the
    lobby. A sweep at 302000 ms finds Alice 5 min 1 s old and Bob 4 min
    59 s old. *)
Definition staleAlice : State :=
  fst (run [(1000, Connection sA (u "10.0.0.1"));
            (1000, InitializeUser sA alice);
            (1000, JoinRoom sA (JStr lobby));
            (3000, Connection sB (u "10.0.0.2"));
            (3000, InitializeUser sB bob);
            (3000, JoinRoom sB (JStr lobby))] initial).

(** A client store that knows no peer and holds no message (the world
    objects, which no reducer below reads, are left empty). *)
Definition blankStore : Client.Store :=
  Client.mkStore true false 0 0 JNull false
    (Client.mkWorldState [] [] JNull) [] false false None.

(** A peer as the server describes it in [userJoined]. *)
Definition peer (i name : string) (x : float) : JsVal :=
  JObj [("id", JStr (u i)); ("username", JStr (u name));
        ("avatar", defaultAvatar); ("position", xyz x 0 0 0);
        ("room", JStr lobby)]%string.

(** * Properties *)

(** ** Projections of the state after an update *)

Ltac proj :=
  cbn [connectedUsers rooms ipConnections sockets adapter
       set_connectedUsers set_rooms set_ipConnections set_sockets set_adapter
       set_socket socket_join fst snd] in *.

Lemma updateActivity_fields s now st :
  rooms (updateActivity s now st) = rooms st ∧
  sockets (updateActivity s now st) = sockets st ∧
  adapter (updateActivity s now st) = adapter st ∧
  ipConnections (updateActivity s now st) = ipConnections st.
Proof. unfold updateActivity. destruct (connectedUsers st !! s); done. Qed.

Lemma updateActivity_rooms s now st :
  rooms (updateActivity s now st) = rooms st.
Proof. apply updateActivity_fields. Qed.

Lemma updateActivity_sockets s now st :
  sockets (updateActivity s now st) = sockets st.
Proof. apply updateActivity_fields. Qed.

Lemma updateActivity_adapter s now st :
  adapter (updateActivity s now st) = adapter st.
Proof. apply updateActivity_fields. Qed.

Lemma updateActivity_lookup s now st x :
  connectedUsers (updateActivity s now st) !! x =
  if decide (s = x)
  then with_lastActivity now <$> (connectedUsers st !! x)
  else connectedUsers st !! x.
Proof.
  unfold updateActivity.
  destruct (connectedUsers st !! s) as [d|] eqn:E; proj.
  - rewrite lookup_insert. case_decide; subst; by rewrite ?E.
  - case_decide; subst; by rewrite ?E.
Qed.

Lemma updateActivity_position s now st :
  position <$> connectedUsers (updateActivity s now st) =
  position <$> connectedUsers st.
Proof.
  apply map_eq; intros x. rewrite !lookup_fmap, updateActivity_lookup.
  case_decide; [|done]. by destruct (connectedUsers st !! x).
Qed.

(** ** Validators on concrete inputs *)

Example sanitizeString_trims_then_strips :
  sanitizeString (u "  <b>hi</b> ") = u "bhi/b" ∧
  sanitizeString (u " < hi > ") = u " hi ".
Proof. split; reflexivity. Qed.

Example isHexColor_examples :
  isHexColor (u "#3b82f6") = true ∧ isHexColor (u "#3B82F6") = true ∧
  isHexColor (u "#12345") = false ∧ isHexColor (u "#1234567") = false ∧
  isHexColor (u "#12345g") = false ∧ isHexColor (u "red") = false.
Proof. repeat split; reflexivity. Qed.

Example validatePosition_bounds :
  validatePosition (xyz 1000 (-1000) 0 0x1.921fb54442d18p+2) = true ∧
  validatePosition (xyz 5000 0 0 0) = false ∧
  validatePosition (xyz 0 0 0 6.5) = false ∧
  validatePosition (xyz nan 0 0 0) = false ∧
  validatePosition (xyz 0 infinity 0 0) = false ∧
  validatePosition (JObj [("x", JNum 0); ("y", JNum 0); ("z", JNum 0)]%string) = false ∧
  validatePosition JNull = false.
Proof. vm_compute. repeat split; reflexivity. Qed.

(** Nothing that [strip_angle] returns contains [<] or [>]. *)
Lemma strip_angle_clean (s : jsstring) (c : N) :
  c ∈ strip_angle s → c ≠ lt_sign ∧ c ≠ gt_sign.
Proof.
  unfold strip_angle. rewrite list_elem_of_In, filter_In. intros [_ H].
  apply negb_true_iff, orb_false_iff in H as [H1 H2].
  by apply N.eqb_neq in H1, H2.
Qed.

(** ** The client reducer of [userLeft] *)

Lemma filterOthers_fixed uid l l' :
  Client.filterOthers uid l = Some l' → Client.filterOthers uid l' = Some l'.
Proof.
  revert l'. induction l as [|x l IH]; intros l' H; simpl in H.
  - by inversion H.
  - destruct (prop_throw x "id") as [i|] eqn:Ei; [|done].
    destruct (Client.filterOthers uid l) as [rest|]; [|done].
    specialize (IH rest eq_refl).
    destruct (Client.same_string i uid) eqn:Es; simpl in H; inversion H; subst.
    + exact IH.
    + simpl. by rewrite Ei, IH, Es.
Qed.

(** C8. Applying the same [userLeft] event twice to a client store gives
    the store obtained by applying it once, whatever the store and the
    payload: the second event finds the peer absent and changes nothing,
    the error field included. *)
Theorem userLeft_idempotent (userId : JsVal) (st : Client.Store) :
  Client.userLeft userId (Client.userLeft userId st) = Client.userLeft userId st.
Proof.
  destruct userId as [| |b|f|uid|items|fields]; try reflexivity.
  unfold Client.userLeft.
  destruct (Client.filterOthers uid (Client.users (Client.worldState st)))
    as [updated|] eqn:E; simpl.
  - by rewrite (filterOthers_fixed _ _ _ E).
  - by rewrite E.
Qed.

(** A well-formed peer list is filtered without raising: the error field
    is left as it was. *)
Lemma userLeft_no_error uid st :
  Forall (fun x => prop_throw x "id" ≠ None) (Client.users (Client.worldState st)) →
  Client.error (Client.userLeft (JStr uid) st) = Client.error st.
Proof.
  unfold Client.userLeft. intros H.
  assert (∃ l', Client.filterOthers uid (Client.users (Client.worldState st)) = Some l')
    as [l' ->]; [|done].
  induction H as [|x l Hx _ [l' IH]]; simpl; [by eexists|].
  destruct (prop_throw x "id"); [|done]. rewrite IH. by eexists.
Qed.

(** ** [initializeUser] *)

Lemma initializeUser_rooms s now userData st :
  rooms (fst (initializeUser s now userData st)) = rooms st ∧
  adapter (fst (initializeUser s now userData st)) = adapter st.
Proof.
  unfold initializeUser.
  destruct (sockets st !! s); [|done].
  destruct (negb (validateUserData userData)); simpl.
  { by rewrite updateActivity_rooms, updateActivity_adapter. }
  destruct (prop userData "username"); simpl;
    by rewrite updateActivity_rooms, updateActivity_adapter.
Qed.

(** C1. On a fresh server, [sockA] connects and sends
    [initializeUser {username: "Alice"}]. The Registry then holds a record
    for [sockA] whose [room] is ["lobby"], but the Room Index is empty and
    [sockA] has not joined the Socket.IO room: the handler only emits a
    [joinRoom] event back to the client and never runs the join. *)
Theorem initializeUser_leaves_room_index_empty :
  let '(st, out) := initializeUser sA 1000 alice connectedA in
  room <$> (connectedUsers st !! sA) = Some (JStr lobby) ∧
  rooms st = ∅ ∧
  (sA ∉ members st lobby) ∧
  (sA ∉ joined st lobby) ∧
  out = [(ToSocket sA, EvJoinRoom (JStr lobby))].
Proof.
  vm_compute. repeat split; try reflexivity; intros H; discriminate H.
Qed.

(** C10. A valid [initializeUser] stores the client's [avatar] value as it
    came whenever that value is truthy, and the default avatar only when
    it is falsy or absent; the same value is kept in [socket.data]. So a
    color that is not [#RRGGBB] survives initialization, whereas the
    object built by [updateAvatar] for that payload carries the default
    color. *)
Theorem initializeUser_keeps_avatar_verbatim
    (s : sid) (now : Z) (userData : JsVal) (st : State) (k : Socket) :
  sockets st !! s = Some k →
  validateUserData userData = true →
  let st' := fst (initializeUser s now userData st) in
  let a := prop userData "avatar" in
  ∃ d k',
    connectedUsers st' !! s = Some d ∧ sockets st' !! s = Some k' ∧
    data_avatar k' = avatar d ∧
    (truthy a = true → avatar d = a) ∧
    (truthy a = false → avatar d = defaultAvatar) ∧
    (∀ c, truthy a = true → stored_color a = JStr c → isHexColor c = false →
          stored_color (avatar d) = JStr c ∧
          stored_color (validAvatarOf a) = JStr (u "#3b82f6")).
Proof.
  intros Hk Hv. unfold initializeUser. rewrite Hk, Hv. simpl negb. cbv iota.
  assert (∃ name, prop userData "username" = JStr name) as [name Hn].
  { unfold validateUserData in Hv.
    destruct (negb (truthy userData) || negb (typeof userData =? "object")%string);
      [done|].
    destruct (prop userData "username"); try done. by eexists. }
  rewrite Hn. proj.
  eexists _, _. rewrite !lookup_insert_eq.
  split; [reflexivity|]. split; [reflexivity|]. cbn [avatar data_avatar].
  split; [reflexivity|]. unfold or_else.
  split; [by intros ->|]. split; [by intros ->|].
  intros c Ht Hc Hhex. rewrite Ht. split; [exact Hc|].
  unfold stored_color in *. unfold validAvatarOf. simpl.
  by rewrite Hc, Hhex.
Qed.

Lemma initializeUser_keeps_avatar_verbatim_witness :
  let red := JObj [("color", JStr (u "red"))]%string in
  let userData := JObj [("username", JStr (u "Alice")); ("avatar", red)]%string in
  let st' := fst (initializeUser sA 1000 userData connectedA) in
  sockets connectedA !! sA = Some (newSocket (u "10.0.0.1")) ∧
  validateUserData userData = true ∧
  ∃ d,
    connectedUsers st' !! sA = Some d ∧
    avatar d = red ∧
    stored_color (avatar d) = JStr (u "red") ∧
    stored_color (validAvatarOf red) = JStr (u "#3b82f6").
Proof.
  cbv zeta.
  assert (sockets connectedA !! sA = Some (newSocket (u "10.0.0.1"))) as Hk
    by (vm_compute; reflexivity).
  split; [exact Hk|]. split; [vm_compute; reflexivity|].
  destruct (initializeUser_keeps_avatar_verbatim sA 1000
              (JObj [("username", JStr (u "Alice"));
                     ("avatar", JObj [("color", JStr (u "red"))])]%string)
              connectedA _ Hk eq_refl)
    as (d & k' & Hd & _ & _ & Hkeep & _ & Hcolor).
  exists d. split; [exact Hd|]. split; [exact (Hkeep eq_refl)|].
  exact (Hcolor (u "red") eq_refl eq_refl eq_refl).
Defined.

(** ** [move] *)

Section Move.
Variables (s : sid) (st : State) (k : Socket).
Hypothesis live : sockets st !! s = Some k.

Lemma move_rate_limited now p :
  now - lastMoveTime k < CONFIG.POSITION_UPDATE_INTERVAL →
  move s now p st = (updateActivity s now st, []).
Proof.
  intros H. unfold move. rewrite live.
  by rewrite (proj2 (Z.ltb_lt _ _) H).
Qed.

Lemma move_invalid now p :
  CONFIG.POSITION_UPDATE_INTERVAL <= now - lastMoveTime k →
  validatePosition p = false →
  move s now p st =
    (set_socket s (with_lastMoveTime now k) (updateActivity s now st),
     [(ToSocket s, EvError "Invalid position data")]).
Proof.
  intros H Hp. unfold move. rewrite live.
  by rewrite (proj2 (Z.ltb_ge _ _) H), Hp.
Qed.

Lemma move_valid_in_room now p :
  CONFIG.POSITION_UPDATE_INTERVAL <= now - lastMoveTime k →
  validatePosition p = true →
  truthy (currentRoom k) = true →
  snd (move s now p st) = [(SocketTo s (currentRoom k), EvUserMoved s p)].
Proof.
  intros H Hp Hr. unfold move. rewrite live.
  rewrite (proj2 (Z.ltb_ge _ _) H), Hp. cbn [negb with_lastMoveTime currentRoom].
  by rewrite Hr.
Qed.

(** A move that passes the rate check records its time, whatever comes
    of the position. *)
Lemma move_records_time now p :
  CONFIG.POSITION_UPDATE_INTERVAL <= now - lastMoveTime k →
  ∃ k', sockets (fst (move s now p st)) !! s = Some k' ∧ lastMoveTime k' = now.
Proof.
  intros H. unfold move. rewrite live.
  rewrite (proj2 (Z.ltb_ge _ _) H).
  destruct (negb (validatePosition p)).
  { proj. rewrite lookup_insert_eq. by eexists. }
  cbn [with_lastMoveTime currentRoom].
  destruct (truthy (currentRoom k)).
  - match goal with
    | |- context [match ?m !! s with _ => _ end] => destruct (m !! s)
    end; proj; rewrite lookup_insert_eq; by eexists.
  - proj. rewrite lookup_insert_eq. by eexists.
Qed.
End Move.

(** C4, as stated, fails: Alice moves at 2000 ms and again at 2050 ms; the
    second move is dropped, yet the state is not the one the first move
    left, because the handler refreshes her [lastActivity] before the rate
    check. *)
Lemma second_move_refreshes_lastActivity :
  let p := xyz 1 0 2 0 in
  let st1 := fst (move sA 2000 p aliceInLobby) in
  let st2 := fst (move sA 2050 p st1) in
  validatePosition p = true ∧
  snd (move sA 2000 p aliceInLobby) = [(SocketTo sA (JStr lobby), EvUserMoved sA p)] ∧
  lastActivity <$> (connectedUsers st1 !! sA) = Some 2000 ∧
  lastActivity <$> (connectedUsers st2 !! sA) = Some 2050 ∧
  st2 ≠ st1.
Proof.
  cbv zeta. split; [vm_compute; reflexivity|]. split; [vm_compute; reflexivity|].
  split; [vm_compute; reflexivity|]. split; [vm_compute; reflexivity|].
  intros H.
  apply (f_equal (fun st => lastActivity <$> (connectedUsers st !! sA))) in H.
  vm_compute in H. discriminate H.
Qed.

(** The first move has to pass the rate check itself: Alice moves at
    2000 ms, a move at 2090 ms is dropped, and a move at 2110 ms, only
    20 ms after the dropped one, is accepted and broadcast. *)
Example move_after_dropped_move_is_accepted :
  let p := xyz 1 0 2 0 in
  let st1 := fst (move sA 2000 p aliceInLobby) in
  let st2 := fst (move sA 2090 p st1) in
  snd (move sA 2090 p st1) = [] ∧
  snd (move sA 2110 (xyz 3 0 4 0) st2) =
    [(SocketTo sA (JStr lobby), EvUserMoved sA (xyz 3 0 4 0))].
Proof. vm_compute. split; reflexivity. Qed.

(** C4, amended. After a move that passed the rate check at [now1], a
    second move less than 100 ms later is dropped without a word, whatever
    the two positions: nothing is emitted and the state is the one the
    first move left except that [updateActivity] has run, so the only
    field that can differ is the sender's [lastActivity]. *)
Theorem move_within_interval_dropped
    (s : sid) (st : State) (k : Socket) (now1 now2 : Z) (p1 p2 : JsVal) :
  sockets st !! s = Some k →
  CONFIG.POSITION_UPDATE_INTERVAL <= now1 - lastMoveTime k →
  now2 - now1 < CONFIG.POSITION_UPDATE_INTERVAL →
  let st1 := fst (move s now1 p1 st) in
  let st2 := fst (move s now2 p2 st1) in
  snd (move s now2 p2 st1) = [] ∧
  st2 = updateActivity s now2 st1 ∧
  sockets st2 = sockets st1 ∧
  rooms st2 = rooms st1 ∧
  adapter st2 = adapter st1 ∧
  ipConnections st2 = ipConnections st1 ∧
  position <$> connectedUsers st2 = position <$> connectedUsers st1 ∧
  (∀ x, x ≠ s → connectedUsers st2 !! x = connectedUsers st1 !! x) ∧
  connectedUsers st2 !! s = with_lastActivity now2 <$> (connectedUsers st1 !! s).
Proof.
  intros Hk H1 H2 st1 st2.
  destruct (move_records_time s st k Hk now1 p1 H1) as (k1 & Hk1 & Ht).
  fold st1 in Hk1.
  assert (move s now2 p2 st1 = (updateActivity s now2 st1, [])) as E.
  { apply (move_rate_limited s st1 k1 Hk1). by rewrite Ht. }
  unfold st2. rewrite E. cbn [fst snd].
  destruct (updateActivity_fields s now2 st1) as (-> & -> & -> & ->).
  rewrite updateActivity_position.
  repeat split.
  - intros x Hx. rewrite updateActivity_lookup. by case_decide.
  - rewrite updateActivity_lookup. by case_decide.
Qed.

Lemma move_within_interval_dropped_witness :
  let p := xyz 1 0 2 0 in
  let st1 := fst (move sA 2000 p aliceInLobby) in
  let st2 := fst (move sA 2050 p st1) in
  sockets aliceInLobby !! sA =
    Some (mkSocket (u "10.0.0.1") (JStr (u "Alice")) defaultAvatar
                   defaultPosition (JStr lobby) 0) ∧
  CONFIG.POSITION_UPDATE_INTERVAL <= 2000 - 0 ∧
  2050 - 2000 < CONFIG.POSITION_UPDATE_INTERVAL ∧
  snd (move sA 2050 p st1) = [] ∧
  st2 = updateActivity sA 2050 st1 ∧
  position <$> connectedUsers st2 = position <$> connectedUsers st1.
Proof.
  cbv zeta.
  assert (sockets aliceInLobby !! sA =
    Some (mkSocket (u "10.0.0.1") (JStr (u "Alice")) defaultAvatar
                   defaultPosition (JStr lobby) 0)) as Hk
    by (vm_compute; reflexivity).
  assert (CONFIG.POSITION_UPDATE_INTERVAL <= 2000 - 0) as H1
    by (vm_compute; discriminate).
  assert (2050 - 2000 < CONFIG.POSITION_UPDATE_INTERVAL) as H2
    by (vm_compute; reflexivity).
  split; [exact Hk|]. split; [exact H1|]. split; [exact H2|].
  pose proof (move_within_interval_dropped sA aliceInLobby _ 2000 2050
                (xyz 1 0 2 0) (xyz 1 0 2 0) Hk H1 H2) as W.
  cbv zeta in W. destruct W as (W1 & W2 & _ & _ & _ & _ & W3 & _).
  split; [exact W1|]. split; [exact W2|]. exact W3.
Defined.

(** C9. A move with an invalid position that passes the rate check is
    answered with an error and changes no stored position, but its time is
    recorded as the last move: a valid move less than 100 ms later is
    dropped, with nothing emitted and no position changed, although the
    same move would have been broadcast had the invalid one not come. *)
Theorem invalid_move_consumes_rate_window
    (s : sid) (st : State) (k : Socket) (now1 now2 : Z) (p1 p2 : JsVal) :
  sockets st !! s = Some k →
  validatePosition p1 = false →
  CONFIG.POSITION_UPDATE_INTERVAL <= now1 - lastMoveTime k →
  validatePosition p2 = true →
  now2 - now1 < CONFIG.POSITION_UPDATE_INTERVAL →
  let st1 := fst (move s now1 p1 st) in
  let st2 := fst (move s now2 p2 st1) in
  snd (move s now1 p1 st) = [(ToSocket s, EvError "Invalid position data")] ∧
  position <$> connectedUsers st1 = position <$> connectedUsers st ∧
  data_position <$> sockets st1 = data_position <$> sockets st ∧
  lastMoveTime <$> (sockets st1 !! s) = Some now1 ∧
  snd (move s now2 p2 st1) = [] ∧
  position <$> connectedUsers st2 = position <$> connectedUsers st ∧
  data_position <$> sockets st2 = data_position <$> sockets st ∧
  (CONFIG.POSITION_UPDATE_INTERVAL <= now2 - lastMoveTime k →
   truthy (currentRoom k) = true →
   snd (move s now2 p2 st) = [(SocketTo s (currentRoom k), EvUserMoved s p2)]).
Proof.
  intros Hk Hp1 H1 Hp2 H2 st1 st2.
  pose proof (move_invalid s st k Hk now1 p1 H1 Hp1) as E1.
  assert (st1 = set_socket s (with_lastMoveTime now1 k) (updateActivity s now1 st))
    as Hst1 by (unfold st1; by rewrite E1).
  assert (sockets st1 !! s = Some (with_lastMoveTime now1 k)) as Hk1.
  { rewrite Hst1. proj. by rewrite lookup_insert_eq. }
  assert (move s now2 p2 st1 = (updateActivity s now2 st1, [])) as E2.
  { by apply (move_rate_limited s st1 _ Hk1). }
  assert (position <$> connectedUsers st1 = position <$> connectedUsers st) as P1.
  { rewrite Hst1. proj. apply updateActivity_position. }
  assert (data_position <$> sockets st1 = data_position <$> sockets st) as D1.
  { rewrite Hst1. proj. rewrite updateActivity_sockets.
    apply map_eq; intros x. rewrite !lookup_fmap, lookup_insert.
    case_decide; [subst; by rewrite Hk|done]. }
  unfold st2. rewrite E1, E2. cbn [fst snd]. fold st1.
  rewrite updateActivity_position, updateActivity_sockets, Hk1.
  repeat split; try done.
  intros H Hr. by apply (move_valid_in_room s st k Hk).
Qed.

Lemma invalid_move_consumes_rate_window_witness :
  let bad := xyz 5000 0 0 0 in
  let good := xyz 1 0 2 0 in
  let st1 := fst (move sA 2000 bad aliceInLobby) in
  validatePosition bad = false ∧ validatePosition good = true ∧
  snd (move sA 2000 bad aliceInLobby) =
    [(ToSocket sA, EvError "Invalid position data")] ∧
  snd (move sA 2050 good st1) = [] ∧
  snd (move sA 2050 good aliceInLobby) =
    [(SocketTo sA (JStr lobby), EvUserMoved sA good)].
Proof.
  cbv zeta.
  assert (sockets aliceInLobby !! sA =
    Some (mkSocket (u "10.0.0.1") (JStr (u "Alice")) defaultAvatar
                   defaultPosition (JStr lobby) 0)) as Hk
    by (vm_compute; reflexivity).
  assert (validatePosition (xyz 5000 0 0 0) = false) as Hp1
    by (vm_compute; reflexivity).
  assert (validatePosition (xyz 1 0 2 0) = true) as Hp2
    by (vm_compute; reflexivity).
  assert (CONFIG.POSITION_UPDATE_INTERVAL <= 2000 - 0) as H1
    by (vm_compute; discriminate).
  assert (2050 - 2000 < CONFIG.POSITION_UPDATE_INTERVAL) as H2
    by (vm_compute; reflexivity).
  pose proof (invalid_move_consumes_rate_window sA aliceInLobby _ 2000 2050
                _ _ Hk Hp1 H1 Hp2 H2) as W.
  cbv zeta in W. destruct W as (W1 & _ & _ & _ & W2 & _ & _ & W3).
  split; [exact Hp1|]. split; [exact Hp2|]. split; [exact W1|].
  split; [exact W2|]. apply W3; [vm_compute; discriminate | reflexivity].
Defined.

(** ** [updateAvatar] *)

Lemma validAvatarOf_text_fields a :
  text_field_rule a (validAvatarOf a) "id" (u "default") ∧
  text_field_rule a (validAvatarOf a) "name" (u "Default") ∧
  text_field_rule a (validAvatarOf a) "model" (u "default").
Proof.
  unfold text_field_rule, validAvatarOf; cbn [prop assoc String.eqb Ascii.eqb Bool.eqb].
  repeat split; try (by intros x ->); intros H.
  - by destruct (prop a "id").
  - by destruct (prop a "name").
  - by destruct (prop a "model").
Qed.

Lemma validAvatarOf_color a :
  (∀ c, prop a "color" = JStr c → isHexColor c = true →
        prop (validAvatarOf a) "color" = JStr c) ∧
  (∀ c, prop a "color" = JStr c → isHexColor c = false →
        prop (validAvatarOf a) "color" = JStr (u "#3b82f6")) ∧
  (is_string (prop a "color") = false →
   prop (validAvatarOf a) "color" = JStr (u "#3b82f6")).
Proof.
  unfold validAvatarOf; cbn [prop assoc String.eqb Ascii.eqb Bool.eqb].
  repeat split.
  - by intros c -> ->.
  - by intros c -> ->.
  - intros H. by destruct (prop a "color").
Qed.

Lemma validAvatarOf_rest a :
  (∀ items, prop a "accessories" = JArr items →
     prop (validAvatarOf a) "accessories" = JArr (List.filter is_string items)) ∧
  ((∀ items, prop a "accessories" ≠ JArr items) →
     prop (validAvatarOf a) "accessories" = JArr []) ∧
  (validatePosition (prop a "position") = true →
     prop (validAvatarOf a) "position" = prop a "position") ∧
  (validatePosition (prop a "position") = false →
     prop (validAvatarOf a) "position" = defaultPosition).
Proof.
  unfold validAvatarOf; cbn [prop assoc String.eqb Ascii.eqb Bool.eqb].
  repeat split.
  - by intros items ->.
  - intros H. destruct (prop a "accessories"); try done. by destruct (H items).
  - by intros ->.
  - by intros ->.
Qed.

(** C3, as stated, fails: Alice's stored avatar is named "Bob"; an update
    that supplies only a color leaves her with the name "Default", not
    "Bob": the handler does not merge over the existing avatar. *)
Lemma updateAvatar_does_not_merge :
  let named := JObj [("name", JStr (u "Bob")); ("color", JStr (u "#ff0000"))]%string in
  let partial := JObj [("color", JStr (u "#00ff00"))]%string in
  let st0 := fst (updateAvatar sA 1500 named aliceInLobby) in
  let st1 := fst (updateAvatar sA 1600 partial st0) in
  let name_of st := (fun d => prop (avatar d) "name") <$> (connectedUsers st !! sA) in
  prop partial "name" = JUndefined ∧
  name_of st0 = Some (JStr (u "Bob")) ∧
  name_of st1 = Some (JStr (u "Default")) ∧
  name_of st1 ≠ name_of st0.
Proof.
  cbv zeta. split; [reflexivity|]. split; [vm_compute; reflexivity|].
  split; [vm_compute; reflexivity|]. vm_compute. discriminate.
Qed.

(** C3, amended. For any payload that is an object, [updateAvatar] never
    answers with an error; it replaces the avatar in [socket.data], and in
    the Registry when the sender has a record, by an object built from the
    payload alone: each text field is the sanitized payload field, or its
    default when the payload has no string there; the color is the payload
    color when it matches [#RRGGBB] in either case and [#3b82f6]
    otherwise; the accessories are the strings of the payload array, or
    none; the position is the payload position when valid, or the origin.
    The previous avatar plays no part. *)
Theorem updateAvatar_replaces_by_validated_copy
    (s : sid) (now : Z) (a : JsVal) (st : State) (k : Socket) :
  sockets st !! s = Some k →
  truthy a = true →
  typeof a = "object"%string →
  let st' := fst (updateAvatar s now a st) in
  let va := validAvatarOf a in
  snd (updateAvatar s now a st) =
    (if truthy (currentRoom k)
     then [(SocketTo s (currentRoom k), EvAvatarUpdated s va)] else []) ∧
  data_avatar <$> (sockets st' !! s) = Some va ∧
  avatar <$> (connectedUsers st' !! s) = (fun _ => va) <$> (connectedUsers st !! s) ∧
  text_field_rule a va "id" (u "default") ∧
  text_field_rule a va "name" (u "Default") ∧
  text_field_rule a va "model" (u "default") ∧
  (∀ c, prop a "color" = JStr c → isHexColor c = true → prop va "color" = JStr c) ∧
  (∀ c, prop a "color" = JStr c → isHexColor c = false →
        prop va "color" = JStr (u "#3b82f6")) ∧
  (is_string (prop a "color") = false → prop va "color" = JStr (u "#3b82f6")) ∧
  (∀ items, prop a "accessories" = JArr items →
     prop va "accessories" = JArr (List.filter is_string items)) ∧
  ((∀ items, prop a "accessories" ≠ JArr items) → prop va "accessories" = JArr []) ∧
  (validatePosition (prop a "position") = true →
     prop va "position" = prop a "position") ∧
  (validatePosition (prop a "position") = false →
     prop va "position" = defaultPosition).
Proof.
  intros Hk Ht Ho st' va.
  assert (updateAvatar s now a st =
    (let st1 := set_socket s (with_data_avatar va k) (updateActivity s now st) in
     match connectedUsers st1 !! s with
     | Some d => set_connectedUsers
                   (fun m => <[s := with_lastActivity now (with_avatar va d)]> m) st1
     | None => st1
     end,
     if truthy (currentRoom k)
     then [(SocketTo s (currentRoom k), EvAvatarUpdated s va)] else [])) as E.
  { unfold updateAvatar. rewrite Hk, Ht, Ho.
    cbn [negb orb String.eqb Ascii.eqb Bool.eqb]. cbv zeta.
    by destruct (truthy (currentRoom k)). }
  unfold st'. rewrite E. cbn [fst snd]. cbv zeta.
  split; [reflexivity|]. proj.
  rewrite updateActivity_lookup. rewrite decide_True by done.
  split; [|split].
  - destruct (connectedUsers st !! s); cbn [fmap option_fmap option_map]; proj;
      by rewrite lookup_insert_eq.
  - destruct (connectedUsers st !! s) as [d|] eqn:Ed;
      cbn [fmap option_fmap option_map]; proj.
    + by rewrite lookup_insert_eq.
    + rewrite updateActivity_lookup, decide_True by done. by rewrite Ed.
  - pose proof (validAvatarOf_text_fields a) as (? & ? & ?).
    pose proof (validAvatarOf_color a) as (? & ? & ?).
    pose proof (validAvatarOf_rest a) as (? & ? & ? & ?). done.
Qed.

Lemma updateAvatar_replaces_by_validated_copy_witness :
  let partial := JObj [("color", JStr (u "red")); ("name", JStr (u " <b>Zed "))]%string in
  let st' := fst (updateAvatar sA 1600 partial aliceInLobby) in
  truthy partial = true ∧ typeof partial = "object"%string ∧
  snd (updateAvatar sA 1600 partial aliceInLobby) =
    [(SocketTo sA (JStr lobby), EvAvatarUpdated sA (validAvatarOf partial))] ∧
  avatar <$> (connectedUsers st' !! sA) = Some (validAvatarOf partial) ∧
  prop (validAvatarOf partial) "color" = JStr (u "#3b82f6") ∧
  prop (validAvatarOf partial) "name" = JStr (u "bZed") ∧
  prop (validAvatarOf partial) "model" = JStr (u "default").
Proof.
  cbv zeta.
  assert (sockets aliceInLobby !! sA =
    Some (mkSocket (u "10.0.0.1") (JStr (u "Alice")) defaultAvatar
                   defaultPosition (JStr lobby) 0)) as Hk
    by (vm_compute; reflexivity).
  pose proof (updateAvatar_replaces_by_validated_copy sA 1600
     (JObj [("color", JStr (u "red")); ("name", JStr (u " <b>Zed "))]%string)
     aliceInLobby _ Hk eq_refl eq_refl) as W.
  cbv zeta in W.
  destruct W as (W1 & _ & W3 & _ & (Wn & _) & (_ & Wm) & _ & Wc & _).
  split; [reflexivity|]. split; [reflexivity|].
  split; [exact W1|].
  split; [rewrite W3; vm_compute; reflexivity|].
  split; [apply (Wc (u "red")); vm_compute; reflexivity|].
  split; [apply (Wn (u " <b>Zed ")); reflexivity|].
  apply Wm. reflexivity.
Defined.

(** ** [sendMessage] *)

Lemma is_literal_true v lit : is_literal v lit = true ↔ v = JStr (u lit).
Proof.
  destruct v; simpl; try (split; [done | by intros [=]]).
  rewrite bool_decide_eq_true. split; [by intros -> | by intros [=]].
Qed.

Lemma prop_throw_string v f m : prop v f = JStr m → prop_throw v f = Some (JStr m).
Proof. destruct v; simpl; try done; by intros ->. Qed.

(** C7. A sender in room [r] sends [{message, type}] with a valid
    message. Exactly one event goes out, a [messageReceived] addressed to
    the whole room with [io.to]: it reaches every connection joined to
    [r], the sender included; its body is the message trimmed and then
    stripped of every [<] and [>], so it contains neither; its type is the supplied one when that
    is ['system'] or ['private'], and ['chat'] otherwise. *)
Theorem sendMessage_reaches_whole_room
    (s : sid) (now : Z) (rnd : jsstring) (data : JsVal) (st : State)
    (r m : jsstring) :
  inRoom st s r →
  prop data "message" = JStr m →
  validateMessage (JStr m) = true →
  let st' := fst (sendMessage s now rnd data st) in
  ∃ msg,
    snd (sendMessage s now rnd data st) = [(IoTo (JStr r), EvMessageReceived msg)] ∧
    msg_userId msg = s ∧
    msg_message msg = strip_angle (trim m) ∧
    (lt_sign ∉ msg_message msg) ∧ (gt_sign ∉ msg_message msg) ∧
    (prop data "type" = JStr (u "system") → msg_type msg = JStr (u "system")) ∧
    (prop data "type" = JStr (u "private") → msg_type msg = JStr (u "private")) ∧
    (prop data "type" ≠ JStr (u "system") → prop data "type" ≠ JStr (u "private") →
     msg_type msg = JStr (u "chat")) ∧
    recipients st' (IoTo (JStr r)) = joined st r ∧
    s ∈ recipients st' (IoTo (JStr r)) ∧
    (∀ x, x ∈ joined st r → x ∈ recipients st' (IoTo (JStr r))).
Proof.
  intros (k & Hk & Hr & Hne & Hj) Hm Hv st'.
  assert (truthy (currentRoom k) = true) as Ht.
  { rewrite Hr. simpl. by destruct r. }
  unfold st', sendMessage. rewrite Hk, (prop_throw_string _ _ _ Hm), Hv, Ht.
  cbn [negb fst snd]. rewrite Hr.
  eexists. split; [reflexivity|]. cbn [msg_userId msg_message msg_type].
  split; [reflexivity|]. split; [reflexivity|].
  split; [intros H; by destruct (strip_angle_clean _ _ H)|].
  split; [intros H; by destruct (strip_angle_clean _ _ H)|].
  split; [|split; [|split]].
  - intros E. rewrite E. reflexivity.
  - intros E. rewrite E. reflexivity.
  - intros N1 N2.
    destruct (is_literal (prop data "type") "system") eqn:E1.
    { by apply is_literal_true in E1. }
    destruct (is_literal (prop data "type") "private") eqn:E2.
    { by apply is_literal_true in E2. }
    reflexivity.
  - unfold recipients, addressed, joined. rewrite updateActivity_adapter. done.
Qed.

Lemma sendMessage_reaches_whole_room_witness :
  let data := JObj [("message", JStr (u "hi"))]%string in
  inRoom aliceAndBob sA lobby ∧
  validateMessage (JStr (u "hi")) = true ∧
  ∃ msg,
    snd (sendMessage sA 1200 (u "k3j9x0q2a") data aliceAndBob) =
      [(IoTo (JStr lobby), EvMessageReceived msg)] ∧
    msg_message msg = u "hi" ∧
    msg_type msg = JStr (u "chat") ∧
    sA ∈ recipients (fst (sendMessage sA 1200 (u "k3j9x0q2a") data aliceAndBob))
                    (IoTo (JStr lobby)) ∧
    sB ∈ recipients (fst (sendMessage sA 1200 (u "k3j9x0q2a") data aliceAndBob))
                    (IoTo (JStr lobby)).
Proof.
  cbv zeta.
  assert (inRoom aliceAndBob sA lobby) as Hin.
  { eexists. split; [vm_compute; reflexivity|]. split; [reflexivity|].
    split; [discriminate|]. apply (bool_decide_unpack _). vm_compute. exact I. }
  assert (sB ∈ joined aliceAndBob lobby) as HB.
  { apply (bool_decide_unpack _). vm_compute. exact I. }
  split; [exact Hin|]. split; [vm_compute; reflexivity|].
  destruct (sendMessage_reaches_whole_room sA 1200 (u "k3j9x0q2a")
              (JObj [("message", JStr (u "hi"))]%string) aliceAndBob lobby (u "hi")
              Hin eq_refl eq_refl)
    as (msg & W1 & _ & W3 & _ & _ & _ & _ & W6 & _ & W8 & W9).
  exists msg. split; [exact W1|]. split; [exact W3|].
  split; [apply W6; discriminate|]. split; [exact W8|]. apply W9, HB.
Defined.

(** After [initializeUser] alone the handlers act on the lobby, but the
    connection has not joined it: Alice's message goes to the lobby and
    does not come back to her. *)
Example sendMessage_after_initialize_only :
  let st := fst (initializeUser sA 1000 alice connectedA) in
  let data := JObj [("message", JStr (u "hi"))]%string in
  ∃ msg,
    snd (sendMessage sA 1200 (u "k3j9x0q2a") data st) =
      [(IoTo (JStr lobby), EvMessageReceived msg)] ∧
    recipients (fst (sendMessage sA 1200 (u "k3j9x0q2a") data st))
               (IoTo (JStr lobby)) = ∅.
Proof. eexists. split; vm_compute; reflexivity. Qed.

(** ** [joinRoom] *)

Lemma removeMember_members s r m r' :
  default ∅ (removeMember s r m !! r') =
  if decide (r = r') then default ∅ (m !! r) ∖ {[s]} else default ∅ (m !! r').
Proof.
  unfold removeMember. destruct (m !! r) as [S|] eqn:E.
  - cbv zeta. destruct (Nat.eqb (size (S ∖ {[s]})) 0) eqn:Z.
    + apply Nat.eqb_eq, size_empty_inv, leibniz_equiv in Z.
      case_decide; subst; [rewrite lookup_delete_eq; simpl; by rewrite Z|].
      by rewrite lookup_delete_ne.
    + case_decide; subst; [by rewrite lookup_insert_eq|].
      by rewrite lookup_insert_ne.
  - case_decide; subst; [|done]. rewrite ?E. simpl. set_solver.
Qed.

Lemma removeMember_last s r m :
  m !! r = Some {[s]} → removeMember s r m !! r = None.
Proof.
  intros H. unfold removeMember. rewrite H. cbv zeta.
  replace ({[s]} ∖ {[s]} : gset sid) with (∅ : gset sid) by set_solver.
  rewrite size_empty. apply lookup_delete_eq.
Qed.

Lemma removeMember_nonempty s r m :
  rooms_nonempty m → rooms_nonempty (removeMember s r m).
Proof.
  intros H r' S'. unfold removeMember. destruct (m !! r) as [S|] eqn:E; [|apply H].
  cbv zeta. destruct (Nat.eqb (size (S ∖ {[s]})) 0) eqn:Z.
  - rewrite lookup_delete. case_decide; [done|apply H].
  - rewrite lookup_insert. case_decide; [|apply H].
    intros [= <-] Hempty. rewrite Hempty, size_empty in Z. done.
Qed.

Lemma removeFromRoom_fields s key st :
  connectedUsers (removeFromRoom s key st) = connectedUsers st ∧
  sockets (removeFromRoom s key st) = sockets st ∧
  adapter (removeFromRoom s key st) = adapter st ∧
  ipConnections (removeFromRoom s key st) = ipConnections st.
Proof. by destruct key. Qed.

Lemma joined_updateActivity s now st r :
  joined (updateActivity s now st) r = joined st r.
Proof. unfold joined. by rewrite updateActivity_adapter. Qed.

Lemma joined_removeFromRoom s key st r :
  joined (removeFromRoom s key st) r = joined st r.
Proof. by destruct key. Qed.

Lemma joined_socket_leave s key st r y :
  y ∈ joined st r → y ≠ s → y ∈ joined (socket_leave s key st) r.
Proof.
  intros Hy Hne. destruct key as [| | | |c| |]; try done.
  unfold joined at 1. cbn [socket_leave]. proj. rewrite lookup_insert.
  case_decide; subst; [simpl; set_solver|done].
Qed.

Section JoinRoom.
Variables (s : sid) (now : Z) (r : jsstring) (st : State) (k : Socket).
Hypothesis live : sockets st !! s = Some k.
Hypothesis valid : validateRoomId (JStr r) = true.

Let r' := sanitizeString r.
Let st' := fst (joinRoom s now (JStr r) st).


Lemma joinRoom_rooms : rooms st' = roomsAfterJoin s k r' (rooms st).
Proof.
  unfold st', joinRoom. rewrite live, valid. cbn [negb fst]. cbv zeta.
  match goal with
  | |- context [match ?m !! s with _ => _ end] => destruct (m !! s)
  end; proj; unfold roomsAfterJoin;
    destruct (currentRoom k) as [| |b|f|c|?|?]; simpl truthy; cbv zeta;
    try destruct b; try destruct (negb _);
    cbn [removeFromRoom socket_leave]; proj;
    rewrite ?updateActivity_rooms; reflexivity.
Qed.

Lemma joinRoom_member : s ∈ members st' r'.
Proof.
  unfold members. rewrite joinRoom_rooms. unfold roomsAfterJoin. cbv zeta.
  rewrite lookup_insert_eq. simpl. set_solver.
Qed.

Lemma joinRoom_socket : sockets st' !! s = Some (with_currentRoom (JStr r') k).
Proof.
  unfold st', joinRoom. rewrite live, valid. cbn [negb fst]. cbv zeta.
  match goal with
  | |- context [match ?m !! s with _ => _ end] => destruct (m !! s)
  end; proj; by rewrite lookup_insert_eq.
Qed.

Lemma joinRoom_joined : s ∈ joined st' r'.
Proof.
  unfold joined at 1. unfold st', joinRoom. rewrite live, valid.
  cbn [negb fst]. cbv zeta.
  match goal with
  | |- context [match ?m !! s with _ => _ end] => destruct (m !! s)
  end; proj; rewrite lookup_insert_eq; simpl; set_solver.
Qed.

(** Who had joined the room stays joined, the joiner apart. *)
Lemma joinRoom_joined_mono y : y ∈ joined st r' → y ≠ s → y ∈ joined st' r'.
Proof.
  intros Hy Hne. unfold joined at 1. unfold st', joinRoom. rewrite live, valid.
  cbn [negb fst]. cbv zeta.
  assert (∀ base, y ∈ joined base r' →
            y ∈ default ∅ (<[r' := joined base r' ∪ {[s]}]> (adapter base) !! r')) as Hins.
  { intros base Hb. rewrite lookup_insert_eq. simpl. set_solver. }
  match goal with
  | |- context [match ?m !! s with _ => _ end] => destruct (m !! s)
  end; proj; apply Hins;
    (destruct (truthy (currentRoom k));
     [rewrite joined_removeFromRoom; apply joined_socket_leave; [|done]|];
     by rewrite joined_updateActivity).
Qed.

Lemma valid_room_nonempty : r' ≠ [].
Proof.
  pose proof valid as H. unfold validateRoomId in H.
  destruct (negb (truthy (JStr r))); [done|]. cbv zeta in H.
  apply andb_prop in H as [H _]. fold r' in H. by destruct r'.
Qed.

(** A valid [joinRoom] puts the sender in the room in the sense of
    [inRoom]. *)
Lemma joinRoom_inRoom : inRoom st' s r'.
Proof.
  exists (with_currentRoom (JStr r') k).
  split; [apply joinRoom_socket|]. split; [reflexivity|].
  split; [apply valid_room_nonempty|apply joinRoom_joined].
Qed.
End JoinRoom.








(** The exception in the reach of [userJoined]: [sockB] has joined the
    room named by the id of [sockA]; when [sockA] joins that room too,
    [socket.to] excepts the whole room and [sockB], though in it, is not
    told. *)
Example userJoined_silent_in_room_named_by_joiner :
  let st := fst (run [(1000, Connection sA (u "10.0.0.1"));
                      (1000, Connection sB (u "10.0.0.2"));
                      (1000, JoinRoom sB (JStr sA))] initial) in
  let '(st', out) := joinRoom sA 1100 (JStr sA) st in
  joined st' sA = {[sA; sB]} ∧
  out = [ (SocketTo sA (JStr sA),
           EvUserJoined sA (JStr (u "Anonymous")) defaultAvatar defaultPosition sA);
          (ToSocket sA, EvRoomUsers []) ] ∧
  recipients st' (SocketTo sA (JStr sA)) = ∅.
Proof. vm_compute. repeat split; reflexivity. Qed.

(** In that run the snapshot sent to Bob is Alice's record and nothing
    else. *)
Example snapshot_for_bob :
  (fun d => (id d, username d)) <$>
    roomUsersOf sB lobby aliceAndBob = [(sA, u "Alice")].
Proof. vm_compute. reflexivity. Qed.

(** ** The inactivity sweep *)

Section Sweep.
Variable now : Z.

Lemma expired_test d : (now - lastActivity d >? timeout) = true ↔ expired now d.
Proof. unfold expired. rewrite Z.gtb_ltb. apply Z.ltb_lt. Qed.

Lemma members_removeFromRoom x key st r :
  members (removeFromRoom x key st) r =
  match key with
  | JStr c => if decide (c = r) then members st c ∖ {[x]} else members st r
  | _ => members st r
  end.
Proof.
  destruct key as [| | | |c| |]; try reflexivity.
  unfold members. cbn [removeFromRoom]. proj. apply removeMember_members.
Qed.

Lemma members_removeFromRoom_subseteq x key st r :
  members (removeFromRoom x key st) r ⊆ members st r.
Proof.
  rewrite members_removeFromRoom. destruct key; try done.
  case_decide; subst; set_solver.
Qed.

Lemma cleanupUser_users st x d :
  connectedUsers (cleanupUser now st (x, d)) =
  if now - lastActivity d >? timeout
  then delete x (connectedUsers st) else connectedUsers st.
Proof.
  unfold cleanupUser. destruct (_ >? _); [|done].
  destruct (truthy (room d)); [|done].
  by destruct (removeFromRoom_fields x (room d)
                 (set_connectedUsers (fun m => delete x m) st)) as (-> & _).
Qed.

Lemma cleanupUser_members_subseteq st e r :
  members (cleanupUser now st e) r ⊆ members st r.
Proof.
  destruct e as [x d]. unfold cleanupUser. destruct (_ >? _); [|done].
  destruct (truthy (room d)); [|done].
  etrans; [apply members_removeFromRoom_subseteq|done].
Qed.

Lemma cleanupUser_leaves_room st x d r :
  expired now d → room d = JStr r → r ≠ [] →
  x ∉ members (cleanupUser now st (x, d)) r.
Proof.
  intros He Hr Hne. unfold cleanupUser. rewrite (proj2 (expired_test d) He), Hr.
  assert (truthy (JStr r) = true) as -> by (by destruct r).
  rewrite members_removeFromRoom, decide_True by done. set_solver.
Qed.

Lemma sweep_members_subseteq l st r :
  members (foldl (cleanupUser now) st l) r ⊆ members st r.
Proof.
  revert st. induction l as [|e l IH]; intros st; [done|]. cbn [foldl].
  etrans; [apply IH|apply cleanupUser_members_subseteq].
Qed.

Lemma sweep_users_stay_absent l st x :
  connectedUsers st !! x = None →
  connectedUsers (foldl (cleanupUser now) st l) !! x = None.
Proof.
  revert st. induction l as [|[y d] l IH]; intros st H; [done|]. cbn [foldl].
  apply IH. rewrite cleanupUser_users. destruct (_ >? _); [|done].
  rewrite lookup_delete. by case_decide.
Qed.

Lemma sweep_users_removed l st x d :
  (x, d) ∈ l → expired now d →
  connectedUsers (foldl (cleanupUser now) st l) !! x = None.
Proof.
  revert st. induction l as [|[y e] l IH]; intros st Hin He.
  - by apply elem_of_nil in Hin.
  - cbn [foldl]. apply elem_of_cons in Hin as [[= <- <-]|Hin]; [|by apply IH].
    apply sweep_users_stay_absent. rewrite cleanupUser_users.
    rewrite (proj2 (expired_test d) He). apply lookup_delete_eq.
Qed.

Lemma sweep_users_kept l st x :
  (∀ d, (x, d) ∈ l → ¬ expired now d) →
  connectedUsers (foldl (cleanupUser now) st l) !! x = connectedUsers st !! x.
Proof.
  revert st. induction l as [|[y e] l IH]; intros st H; [done|]. cbn [foldl].
  rewrite IH by (intros d Hd; apply H; by right).
  rewrite cleanupUser_users. destruct (_ >? _) eqn:T; [|done].
  apply expired_test in T. rewrite lookup_delete_ne; [done|].
  intros ->. apply (H e); [by left|done].
Qed.

Lemma sweep_leaves_room l st x d r :
  (x, d) ∈ l → expired now d → room d = JStr r → r ≠ [] →
  x ∉ members (foldl (cleanupUser now) st l) r.
Proof.
  revert st. induction l as [|[y e] l IH]; intros st Hin He Hr Hne.
  - by apply elem_of_nil in Hin.
  - cbn [foldl]. apply elem_of_cons in Hin as [[= <- <-]|Hin]; [|by apply IH].
    intros Hx. apply sweep_members_subseteq in Hx.
    by apply (cleanupUser_leaves_room st x d r).
Qed.
End Sweep.

(** C5. The sweep at time [now] removes from the Registry exactly the
    records whose last activity is more than five minutes old: such a
    record is gone afterwards, any other record is still there unchanged,
    and no record appears. A record 5 min + 1 s old goes, one 4 min 59 s
    old stays. Each removed record whose [room] is a non-empty string is
    also gone from the Room Index entry of that room. *)
Theorem cleanupInactiveUsers_removes_exactly_the_expired (now : Z) (st : State) :
  let st' := cleanupInactiveUsers now st in
  (∀ x d, connectedUsers st !! x = Some d → 5 * 60 * 1000 < now - lastActivity d →
          connectedUsers st' !! x = None) ∧
  (∀ x d, connectedUsers st !! x = Some d → now - lastActivity d <= 5 * 60 * 1000 →
          connectedUsers st' !! x = Some d) ∧
  (∀ x, connectedUsers st !! x = None → connectedUsers st' !! x = None) ∧
  (∀ x d, connectedUsers st !! x = Some d →
          now - lastActivity d = 5 * 60 * 1000 + 1000 →
          connectedUsers st' !! x = None) ∧
  (∀ x d, connectedUsers st !! x = Some d →
          now - lastActivity d = 4 * 60 * 1000 + 59 * 1000 →
          connectedUsers st' !! x = Some d) ∧
  (∀ x d r, connectedUsers st !! x = Some d → 5 * 60 * 1000 < now - lastActivity d →
            room d = JStr r → r ≠ [] → x ∉ members st' r).
Proof.
  intros st'. unfold st', cleanupInactiveUsers.
  assert (∀ x d, connectedUsers st !! x = Some d → expired now d →
            connectedUsers (foldl (cleanupUser now) st
                              (map_to_list (connectedUsers st))) !! x = None) as Hgone.
  { intros x d Hx He. apply (sweep_users_removed now _ st x d); [|done].
    by apply elem_of_map_to_list. }
  assert (∀ x d, connectedUsers st !! x = Some d → ¬ expired now d →
            connectedUsers (foldl (cleanupUser now) st
                              (map_to_list (connectedUsers st))) !! x = Some d) as Hkept.
  { intros x d Hx He. rewrite sweep_users_kept; [done|].
    intros d' Hd'. apply elem_of_map_to_list in Hd'. congruence. }
  repeat split.
  - intros x d Hx He. by apply (Hgone x d).
  - intros x d Hx He. apply (Hkept x d Hx). unfold expired, timeout. lia.
  - intros x Hx. by apply sweep_users_stay_absent.
  - intros x d Hx He. apply (Hgone x d Hx). unfold expired, timeout. lia.
  - intros x d Hx He. apply (Hkept x d Hx). unfold expired, timeout. lia.
  - intros x d r Hx He Hr Hne.
    apply (sweep_leaves_room now _ st x d r); try done.
    by apply elem_of_map_to_list.
Qed.

Lemma cleanupInactiveUsers_removes_exactly_the_expired_witness :
  let st' := cleanupInactiveUsers 302000 staleAlice in
  lastActivity <$> (connectedUsers staleAlice !! sA) = Some (302000 - 301000) ∧
  lastActivity <$> (connectedUsers staleAlice !! sB) = Some (302000 - 299000) ∧
  connectedUsers st' !! sA = None ∧
  connectedUsers st' !! sB = connectedUsers staleAlice !! sB ∧
  (sA ∉ members st' lobby).
Proof.
  cbv zeta.
  destruct (cleanupInactiveUsers_removes_exactly_the_expired 302000 staleAlice)
    as (_ & _ & _ & Wgone & Wkept & Wroom).
  assert (∃ d, connectedUsers staleAlice !! sA = Some d ∧ lastActivity d = 1000
               ∧ room d = JStr lobby) as (dA & HA & HtA & HrA).
  { eexists. split; [vm_compute; reflexivity|]. split; reflexivity. }
  assert (∃ d, connectedUsers staleAlice !! sB = Some d ∧ lastActivity d = 3000)
    as (dB & HB & HtB).
  { eexists. split; [vm_compute; reflexivity|]. reflexivity. }
  split; [rewrite HA; simpl; by rewrite HtA|].
  split; [rewrite HB; simpl; by rewrite HtB|].
  split; [apply (Wgone sA dA HA); rewrite HtA; reflexivity|].
  split; [rewrite HB; apply (Wkept sB dB HB); rewrite HtB; reflexivity|].
  apply (Wroom sA dA lobby HA); [rewrite HtA; reflexivity|exact HrA|discriminate].
Defined.

(** ** Rooms exist exactly while they have members *)

Ltac split_cases :=
  repeat match goal with
         | |- context [match ?x with _ => _ end] => destruct x
         end.

Lemma move_rooms s now p st : rooms (fst (move s now p st)) = rooms st.
Proof.
  unfold move. destruct (sockets st !! s); [|done].
  destruct (_ <? _); [apply updateActivity_rooms|].
  destruct (negb _); [apply updateActivity_rooms|].
  destruct (truthy _); [|apply updateActivity_rooms].
  cbv zeta. split_cases; apply updateActivity_rooms.
Qed.

Lemma sendMessage_rooms s now rnd data st :
  rooms (fst (sendMessage s now rnd data st)) = rooms st.
Proof.
  unfold sendMessage. destruct (sockets st !! s); [|done].
  cbv zeta. split_cases; apply updateActivity_rooms.
Qed.

Lemma updateAvatar_rooms s now a st :
  rooms (fst (updateAvatar s now a st)) = rooms st.
Proof.
  unfold updateAvatar. destruct (sockets st !! s); [|done].
  destruct (_ || _); [apply updateActivity_rooms|].
  cbv zeta. split_cases; apply updateActivity_rooms.
Qed.

Lemma onConnection_rooms s ip st : rooms (onConnection s ip st) = rooms st.
Proof. unfold onConnection. by split_cases. Qed.

Lemma roomsAfterJoin_nonempty s k r' m :
  rooms_nonempty m → rooms_nonempty (roomsAfterJoin s k r' m).
Proof.
  intros H. unfold roomsAfterJoin.
  set (left := match currentRoom k with
               | JStr c => if truthy (currentRoom k) then removeMember s c m else m
               | _ => m
               end).
  assert (rooms_nonempty left) as Hleft.
  { unfold left. destruct (currentRoom k); try done.
    destruct (truthy _); [by apply removeMember_nonempty|done]. }
  cbv zeta. intros r S. rewrite lookup_insert. case_decide; [|apply Hleft].
  intros [= <-]. set_solver.
Qed.

Lemma joinRoom_rooms_nonempty s now roomId st :
  rooms_nonempty (rooms st) →
  rooms_nonempty (rooms (fst (joinRoom s now roomId st))).
Proof.
  intros H. destruct (sockets st !! s) as [k|] eqn:Hk.
  2:{ unfold joinRoom. by rewrite Hk. }
  destruct (validateRoomId roomId) eqn:Hv.
  - destruct roomId as [| | | |r| |]; try discriminate Hv.
    rewrite (joinRoom_rooms s now r st k Hk Hv). by apply roomsAfterJoin_nonempty.
  - unfold joinRoom. rewrite Hk, Hv. cbn [negb fst]. by rewrite updateActivity_rooms.
Qed.

Lemma disconnect_rooms_nonempty s st :
  rooms_nonempty (rooms st) → rooms_nonempty (rooms (fst (disconnect s st))).
Proof.
  intros H. unfold disconnect. destruct (sockets st !! s) as [k|]; [|done].
  cbv zeta.
  set (st1 := if _ >? 0 then _ else _).
  assert (rooms st1 = rooms st) as E by (unfold st1; by split_cases).
  destruct (truthy (currentRoom k)); proj; [|by rewrite E].
  destruct (currentRoom k); cbn [removeFromRoom]; proj; rewrite E; try done.
  by apply removeMember_nonempty.
Qed.

Lemma cleanupUser_rooms_nonempty now st e :
  rooms_nonempty (rooms st) → rooms_nonempty (rooms (cleanupUser now st e)).
Proof.
  intros H. destruct e as [x d]. unfold cleanupUser.
  destruct (_ >? _); [|done]. destruct (truthy _); [|done].
  destruct (room d); cbn [removeFromRoom]; proj; try done.
  by apply removeMember_nonempty.
Qed.

Lemma cleanupInactiveUsers_rooms_nonempty now st :
  rooms_nonempty (rooms st) → rooms_nonempty (rooms (cleanupInactiveUsers now st)).
Proof.
  unfold cleanupInactiveUsers. generalize (map_to_list (connectedUsers st)).
  intros l. revert st. induction l as [|e l IH]; intros st H; [done|].
  cbn [foldl]. by apply IH, cleanupUser_rooms_nonempty.
Qed.

Lemma step_rooms_nonempty now e st :
  rooms_nonempty (rooms st) → rooms_nonempty (rooms (fst (step now e st))).
Proof.
  intros H. destruct e; cbn [step fst].
  - by rewrite onConnection_rooms.
  - by apply joinRoom_rooms_nonempty.
  - by rewrite move_rooms.
  - by rewrite sendMessage_rooms.
  - by rewrite updateAvatar_rooms.
  - by rewrite (proj1 (initializeUser_rooms _ _ _ _)).
  - by apply disconnect_rooms_nonempty.
  - by apply cleanupInactiveUsers_rooms_nonempty.
Qed.

Lemma run_rooms_nonempty trace st :
  rooms_nonempty (rooms st) → rooms_nonempty (rooms (fst (run trace st))).
Proof.
  revert st. induction trace as [|[now e] trace IH]; intros st H; [done|].
  cbn [run]. pose proof (step_rooms_nonempty now e st H) as H1.
  destruct (step now e st) as [st1 out1]. specialize (IH st1 H1).
  by destruct (run trace st1).
Qed.

(** C6. The claim fails on the code. [sockA] joins [r1] and is its only
    member. It then initializes, which overwrites
    [socket.data.currentRoom] with the lobby without leaving [r1] (the
    defect of C1). When it disconnects, the handler takes it out of the
    entry named by [socket.data.currentRoom], the lobby's, which does not
    exist; the entry of [r1] stays in the Room Index, holding the
    identity of a connection that is gone, and the [userLeft] goes to the
    lobby. *)
Lemma last_member_disconnects_entry_stays :
  let r1 := u "r1" in
  let st0 := fst (run [(1000, Connection sA (u "10.0.0.1"));
                       (1000, JoinRoom sA (JStr r1));
                       (1100, InitializeUser sA alice)] initial) in
  let '(st1, out) := disconnect sA st0 in
  rooms st0 = {[r1 := {[sA]}]} ∧
  currentRoom <$> sockets st0 !! sA = Some (JStr lobby) ∧
  sockets st1 = ∅ ∧
  rooms st1 = {[r1 := {[sA]}]} ∧
  out = [(SocketTo sA (JStr lobby), EvUserLeft sA)].
Proof. vm_compute. repeat split; reflexivity. Qed.

(** ** An entry is deleted exactly when it is emptied *)

Lemma removeMember_lookup s c m q :
  removeMember s c m !! q =
  if decide (c = q) then entryOf (default ∅ (m !! c) ∖ {[s]}) else m !! q.
Proof.
  unfold removeMember, entryOf. destruct (m !! c) as [S|] eqn:E.
  - cbv zeta. change (default ∅ (Some S)) with S.
    destruct (Nat.eqb (size (S ∖ {[s]})) 0) eqn:Z.
    + apply Nat.eqb_eq, size_empty_inv, leibniz_equiv in Z.
      destruct (decide (c = q)) as [<-|Hne].
      * rewrite lookup_delete_eq. by rewrite decide_True.
      * by rewrite lookup_delete_ne.
    + destruct (decide (c = q)) as [<-|Hne].
      * rewrite lookup_insert_eq. rewrite decide_False; [done|].
        intros Hempty. by rewrite Hempty, size_empty in Z.
      * by rewrite lookup_insert_ne.
  - destruct (decide (c = q)) as [<-|Hne]; [|done].
    rewrite E. change (default ∅ None) with (∅ : gset sid).
    rewrite decide_True; [done|set_solver].
Qed.

Lemma left_room_lookup s v m q :
  match v with
  | JStr c => if truthy v then removeMember s c m else m
  | _ => m
  end !! q =
  if names v q then entryOf (default ∅ (m !! q) ∖ {[s]}) else m !! q.
Proof.
  destruct v as [| | | |c| |]; try done. cbn [truthy names].
  destruct (Nat.eqb (length c) 0); cbn [negb].
  { by rewrite andb_false_r. }
  rewrite andb_true_r, removeMember_lookup.
  destruct (decide (c = q)) as [<-|Hne].
  - by rewrite bool_decide_eq_true_2.
  - by rewrite bool_decide_eq_false_2.
Qed.

Lemma disconnect_rooms s st k :
  sockets st !! s = Some k →
  rooms (fst (disconnect s st)) =
    match currentRoom k with
    | JStr c => if truthy (currentRoom k) then removeMember s c (rooms st)
                else rooms st
    | _ => rooms st
    end.
Proof.
  intros Hk. unfold disconnect. rewrite Hk. cbv zeta.
  set (st1 := if _ >? 0 then _ else _).
  assert (rooms st1 = rooms st) as E by (unfold st1; by split_cases).
  destruct (truthy (currentRoom k)) eqn:Ht; proj.
  - destruct (currentRoom k); cbn [removeFromRoom]; proj; by rewrite E.
  - rewrite E. by destruct (currentRoom k).
Qed.

(** X21. No run of events leaves an entry of the Room Index holding the
    empty set. A [disconnect] changes one entry at most,
    the one named by [socket.data.currentRoom]: the identity is taken out
    of it, and the entry is deleted exactly when that empties it. A valid
    [joinRoom] does the same to the room it leaves and then makes the
    entry of the sanitized room hold the joiner besides whoever it held.
    Every other entry is as before. *)
Theorem entry_is_deleted_exactly_when_emptied
    (trace : list (Z * Event)) (s : sid) (now : Z) (st : State) (k : Socket) :
  sockets st !! s = Some k →
  (∀ q S, rooms (fst (run trace initial)) !! q = Some S → S ≠ ∅) ∧
  (∀ q, rooms (fst (disconnect s st)) !! q =
        if names (currentRoom k) q then entryOf (members st q ∖ {[s]})
        else rooms st !! q) ∧
  (∀ r q, validateRoomId (JStr r) = true →
          rooms (fst (joinRoom s now (JStr r) st)) !! q =
          if decide (q = sanitizeString r)
          then Some ((if names (currentRoom k) q then members st q ∖ {[s]}
                      else members st q) ∪ {[s]})
          else if names (currentRoom k) q then entryOf (members st q ∖ {[s]})
          else rooms st !! q).
Proof.
  intros Hk. split; [|split].
  - apply run_rooms_nonempty. intros q S. unfold initial. proj.
    by rewrite lookup_empty.
  - intros q. rewrite (disconnect_rooms s st k Hk). apply left_room_lookup.
  - intros r q Hv. rewrite (joinRoom_rooms s now r st k Hk Hv).
    unfold roomsAfterJoin. cbv zeta. unfold members.
    destruct (decide (q = sanitizeString r)) as [->|Hne].
    + rewrite lookup_insert_eq, left_room_lookup.
      destruct (names (currentRoom k) (sanitizeString r)); [|done].
      unfold entryOf. by case_decide as E; [rewrite E|].
    + rewrite lookup_insert_ne by done. apply left_room_lookup.
Qed.

(** Bob, the last member of the lobby, disconnects: the entry goes. *)
Lemma entry_is_deleted_exactly_when_emptied_witness :
  let st := fst (disconnect sA aliceAndBob) in
  sockets st !! sB
    = Some (mkSocket (u "10.0.0.2") (JStr (u "Bob")) defaultAvatar defaultPosition
              (JStr lobby) 0) ∧
  rooms st !! lobby = Some {[sB]} ∧
  rooms (fst (disconnect sB st)) !! lobby = None.
Proof.
  cbv zeta.
  match goal with |- ?A ∧ _ => assert A as Hk by (vm_compute; reflexivity) end.
  split; [exact Hk|]. split; [vm_compute; reflexivity|].
  destruct (entry_is_deleted_exactly_when_emptied [] sB 0 _ _ Hk) as (_ & W & _).
  rewrite (W lobby). vm_compute. reflexivity.
Defined.

(** The scenario of the specification: with Alice and Bob in the lobby,
    Alice disconnects and the lobby persists with Bob, who is told;
    Bob disconnects and the lobby has no entry any more. *)
Example lobby_deleted_with_last_member :
  let '(st1, out1) := disconnect sA aliceAndBob in
  let '(st2, out2) := disconnect sB st1 in
  rooms st1 !! lobby = Some {[sB]} ∧
  out1 = [(SocketTo sA (JStr lobby), EvUserLeft sA)] ∧
  recipients st1 (SocketTo sA (JStr lobby)) = {[sB]} ∧
  rooms st2 !! lobby = None ∧
  rooms st2 = ∅.
Proof. vm_compute. repeat split; reflexivity. Qed.

(** What the invariant does not say: an entry is deleted when its set
    becomes empty, not when its members are gone from the server. A
    connection that joined [r1], then re-initialized with another room,
    is not taken out of [r1] when it disconnects, because the handler
    removes it from [socket.data.currentRoom] only; the entry stays, and
    stays non-empty. *)
Example stale_member_keeps_room :
  let r1 := u "r1" in
  let again := JObj [("username", JStr (u "Alice")); ("room", JStr (u "r2"))]%string in
  let st := fst (run [(1000, Connection sA (u "10.0.0.1"));
                      (1000, JoinRoom sA (JStr r1));
                      (1100, InitializeUser sA again);
                      (1200, Disconnect sA)] initial) in
  sockets st !! sA = None ∧ rooms st !! r1 = Some {[sA]}.
Proof. vm_compute. split; reflexivity. Qed.

(** * Further properties of the server *)

(** ** [sanitizeString] *)

Lemma trimStart_length s : (length (trimStart s) ≤ length s)%nat.
Proof.
  induction s as [|c s IH]; simpl; [done|].
  destruct (isWhiteSpace c); simpl; lia.
Qed.

Lemma trim_length s : (length (trim s) ≤ length s)%nat.
Proof.
  unfold trim, trimEnd. rewrite length_rev.
  etrans; [apply trimStart_length|]. rewrite length_rev. apply trimStart_length.
Qed.

Lemma strip_angle_length s : (length (strip_angle s) ≤ length s)%nat.
Proof. unfold strip_angle. apply filter_length_le. Qed.

Lemma trimStart_fixed s :
  (∀ c, head s = Some c → isWhiteSpace c = false) → trimStart s = s.
Proof. destruct s as [|c s]; simpl; [done|]. intros H. by rewrite (H c). Qed.

Lemma trim_fixed s :
  (∀ c, head s = Some c → isWhiteSpace c = false) →
  (∀ c, last s = Some c → isWhiteSpace c = false) →
  trim s = s.
Proof.
  intros Hh Hl. unfold trim, trimEnd. rewrite (trimStart_fixed s Hh).
  rewrite trimStart_fixed; [apply rev_involutive|].
  intros c Hc. apply Hl. rewrite <- head_reverse.
  unfold reverse. by rewrite <- rev_alt.
Qed.

Lemma strip_angle_fixed s :
  lt_sign ∉ s → gt_sign ∉ s → strip_angle s = s.
Proof.
  unfold strip_angle. induction s as [|c s IH]; intros H1 H2; [done|].
  simpl. rewrite not_elem_of_cons in H1, H2.
  destruct H1 as [N1 H1], H2 as [N2 H2].
  assert ((c =? lt_sign)%N = false) as -> by (apply N.eqb_neq; congruence).
  assert ((c =? gt_sign)%N = false) as -> by (apply N.eqb_neq; congruence).
  simpl. by rewrite IH.
Qed.

(** X1. [sanitizeString] never lengthens its input, its result contains
    neither [<] nor [>], and a string that has no [<] or [>] and neither
    starts nor ends with white space comes back unchanged. *)
Theorem sanitizeString_spec (s : jsstring) :
  (length (sanitizeString s) ≤ length s)%nat ∧
  (lt_sign ∉ sanitizeString s) ∧ (gt_sign ∉ sanitizeString s) ∧
  ((∀ c, head s = Some c → isWhiteSpace c = false) →
   (∀ c, last s = Some c → isWhiteSpace c = false) →
   lt_sign ∉ s → gt_sign ∉ s →
   sanitizeString s = s).
Proof.
  unfold sanitizeString. split; [|split; [|split]].
  - etrans; [apply strip_angle_length|apply trim_length].
  - intros H. by destruct (strip_angle_clean _ _ H).
  - intros H. by destruct (strip_angle_clean _ _ H).
  - intros Hh Hl H1 H2. rewrite (trim_fixed s Hh Hl). by apply strip_angle_fixed.
Qed.

Lemma sanitizeString_spec_witness :
  sanitizeString (u "Alice B") = u "Alice B" ∧
  (length (sanitizeString (u " <b> x ")) ≤ length (u " <b> x "))%nat.
Proof.
  destruct (sanitizeString_spec (u "Alice B")) as (_ & _ & _ & Hfix).
  destruct (sanitizeString_spec (u " <b> x ")) as (Hlen & _).
  split; [|exact Hlen].
  apply Hfix.
  - intros c [= <-]. reflexivity.
  - intros c [= <-]. reflexivity.
  - intros H. apply (bool_decide_pack _) in H. vm_compute in H. exact H.
  - intros H. apply (bool_decide_pack _) in H. vm_compute in H. exact H.
Defined.

(** ** [joinRoom]: who is where afterwards *)

Lemma roomsAfterJoin_members s k r' m q :
  default ∅ (roomsAfterJoin s k r' m !! q) =
  let left :=
    match currentRoom k with
    | JStr c => if decide (c = q ∧ c ≠ [])
                then default ∅ (m !! q) ∖ {[s]} else default ∅ (m !! q)
    | _ => default ∅ (m !! q)
    end in
  if decide (r' = q) then left ∪ {[s]} else left.
Proof.
  unfold roomsAfterJoin. cbv zeta.
  set (left := match currentRoom k with
               | JStr c => if truthy (currentRoom k) then removeMember s c m else m
               | _ => m
               end).
  assert (∀ q', default ∅ (left !! q') =
            match currentRoom k with
            | JStr c => if decide (c = q' ∧ c ≠ [])
                        then default ∅ (m !! q') ∖ {[s]} else default ∅ (m !! q')
            | _ => default ∅ (m !! q')
            end) as Hleft.
  { intros q'. unfold left. destruct (currentRoom k) as [| | | |c| |]; try done.
    destruct c as [|c0 c]; simpl truthy; cbn [negb].
    - rewrite decide_False by (by intros [_ ?]). done.
    - rewrite removeMember_members.
      destruct (decide (c0 :: c = q')) as [<-|Hne].
      + by rewrite decide_True.
      + by rewrite decide_False by (by intros [? _]). }
  rewrite lookup_insert. case_decide as Hq.
  - subst q. simpl. by rewrite Hleft.
  - apply Hleft.
Qed.

(** X2. A valid [joinRoom] moves the sender and nobody else: afterwards
    the sender is in the Room Index entry of the sanitized room; in any
    other room it is a member exactly if it was one before and that room
    is not the (non-empty) [socket.data.currentRoom] it came from; and
    for every other identity membership in every room is as before. *)
Theorem joinRoom_moves_only_the_sender
    (s : sid) (now : Z) (r : jsstring) (st : State) (k : Socket) :
  sockets st !! s = Some k →
  validateRoomId (JStr r) = true →
  let st' := fst (joinRoom s now (JStr r) st) in
  let r' := sanitizeString r in
  s ∈ members st' r' ∧
  (∀ q, q ≠ r' →
        (s ∈ members st' q ↔
         s ∈ members st q ∧ ¬ (currentRoom k = JStr q ∧ q ≠ []))) ∧
  (∀ x q, x ≠ s → (x ∈ members st' q ↔ x ∈ members st q)).
Proof.
  intros Hk Hv st' r'.
  split; [apply (joinRoom_member s now r st k Hk Hv)|].
  assert (∀ q, members st' q =
            default ∅ (roomsAfterJoin s k r' (rooms st) !! q)) as Hm.
  { intros q. unfold members, st'. by rewrite (joinRoom_rooms s now r st k Hk Hv). }
  split.
  - intros q Hq. rewrite Hm, roomsAfterJoin_members. cbv zeta.
    rewrite decide_False by done. fold (members st q).
    destruct (currentRoom k) as [| | | |c| |];
      try (split; [intros H; split; [done | by intros [? _]] | by intros [? _]]).
    case_decide as Hc.
    + destruct Hc as [-> Hne]. split; [set_solver|]. intros [_ H]. by destruct H.
    + split; [intros H; split; [done|] | by intros [? _]].
      intros [[= ->] Hne]. by apply Hc.
  - intros x q Hx. rewrite Hm, roomsAfterJoin_members. cbv zeta.
    fold (members st q).
    destruct (currentRoom k) as [| | | |c| |]; repeat case_decide; set_solver.
Qed.

(** Alice is in the lobby with Bob and moves to the room "garden". *)
Lemma joinRoom_moves_only_the_sender_witness :
  let st' := fst (joinRoom sA 1300 (JStr (u " garden ")) aliceAndBob) in
  validateRoomId (JStr (u " garden ")) = true ∧
  members aliceAndBob lobby = {[sA; sB]} ∧
  sA ∈ members st' (u "garden") ∧
  (sA ∉ members st' lobby) ∧
  sB ∈ members st' lobby.
Proof.
  cbv zeta.
  assert (sockets aliceAndBob !! sA =
    Some (mkSocket (u "10.0.0.1") (JStr (u "Alice")) defaultAvatar
                   defaultPosition (JStr lobby) 0)) as Hk
    by (vm_compute; reflexivity).
  assert (members aliceAndBob lobby = {[sA; sB]}) as Hm
    by (vm_compute; reflexivity).
  destruct (joinRoom_moves_only_the_sender sA 1300 (u " garden ") aliceAndBob _
              Hk eq_refl) as (W1 & W2 & W3).
  split; [reflexivity|]. split; [exact Hm|]. split; [exact W1|]. split.
  - intros H. apply (W2 lobby) in H; [|discriminate].
    destruct H as [_ H]. apply H. split; [reflexivity|discriminate].
  - apply (W3 sB lobby); [discriminate|]. rewrite Hm. set_solver.
Defined.

(** ** Rejected events *)











(** ** Where broadcasts go *)

Ltac pick H :=
  repeat (apply elem_of_cons in H as [H|H]; [injection H as -> ->|]);
  try (by apply elem_of_nil in H).

(** What an event of a live connection [s] emits is addressed to [s]
    itself or, with [socket.to] or [io.to], to the value held in
    [socket.data.currentRoom] when the event arrived (for a [joinRoom],
    to the sanitized room being joined), a value that is not empty. *)
Lemma step_targets now e st s k t ev :
  sender e = Some s →
  sockets st !! s = Some k →
  (t, ev) ∈ snd (step now e st) →
  t = ToSocket s ∨
  ∃ c, truthy c = true ∧ (t = SocketTo s c ∨ t = IoTo c) ∧
       (c = currentRoom k ∨
        ∃ r, e = JoinRoom s (JStr r) ∧ c = JStr (sanitizeString r)).
Proof.
  intros Hs Hk Hin.
  destruct e; cbn [sender step] in *; try discriminate Hs; injection Hs as ->.
  - unfold joinRoom in Hin. rewrite Hk in Hin. cbv zeta in Hin.
    destruct (validateRoomId roomId) eqn:Hv; cbn [negb snd] in Hin;
      [|pick Hin; by left].
    destruct roomId as [| | | |r| |]; try discriminate Hv.
    cbn [snd] in Hin. pick Hin; [|by left].
    right. exists (JStr (sanitizeString r)).
    split; [|split; [by left|right; by exists r]].
    pose proof (valid_room_nonempty r Hv) as Hne. simpl.
    by destruct (sanitizeString r).
  - unfold move in Hin. rewrite Hk in Hin. cbv zeta in Hin.
    destruct (_ <? _); [pick Hin|].
    destruct (negb _); [pick Hin; by left|].
    cbn [with_lastMoveTime currentRoom] in Hin.
    destruct (truthy (currentRoom k)) eqn:Ht; cbn [snd] in Hin; pick Hin.
    right. exists (currentRoom k). split; [done|]. split; [by left|by left].
  - unfold sendMessage in Hin. rewrite Hk in Hin. cbv zeta in Hin.
    destruct (prop_throw data "message") as [m|]; [|pick Hin; by left].
    destruct (negb _); [pick Hin; by left|].
    destruct (truthy (currentRoom k)) eqn:Ht; [|pick Hin].
    destruct m; cbn [snd] in Hin; pick Hin.
    right. exists (currentRoom k). split; [done|]. split; [by right|by left].
  - unfold updateAvatar in Hin. rewrite Hk in Hin. cbv zeta in Hin.
    destruct (_ || _); [pick Hin; by left|].
    destruct (truthy (currentRoom k)) eqn:Ht; cbn [snd] in Hin; pick Hin.
    right. exists (currentRoom k). split; [done|]. split; [by left|by left].
  - unfold initializeUser in Hin. rewrite Hk in Hin. cbv zeta in Hin.
    destruct (negb _); [pick Hin; by left|].
    destruct (prop userData "username"); cbn [snd] in Hin; pick Hin. by left.
  - unfold disconnect in Hin. rewrite Hk in Hin. cbv zeta in Hin.
    destruct (truthy (currentRoom k)) eqn:Ht; cbn [snd] in Hin; pick Hin.
    right. exists (currentRoom k). split; [done|]. split; [by left|by left].
Qed.

Lemma addressed_named st c x :
  x ∈ addressed st c →
  c = JArr [] ∨ ∃ q, q ∈ roomsNamed c ∧ x ∈ joined st q.
Proof.
  intros H. destruct c as [| | | |r|items|]; cbn [addressed roomsNamed] in H;
    try (by (simpl in H; apply elem_of_empty in H)).
  - right. exists r. split; [|done]. cbn [roomsNamed]. by left.
  - destruct items as [|item items]; [by left|]. right.
    apply elem_of_union_list in H as (X & HX & Hx).
    apply list_elem_of_fmap in HX as (q & -> & Hq). by exists q.
Qed.

(** X4. Whoever receives what an event of a live connection [s] makes
    the server emit is [s] itself or is joined to a room named by the
    value held in [socket.data.currentRoom] when the event arrived (for a
    [joinRoom]: by the sanitized room being joined). That value is never
    an empty one; it is a room name, or, after an [initializeUser] with
    such a [room], an array of room names, each of which is addressed;
    only when it is the empty array can the emission reach connections
    that are in no such room. A connection that has no current room
    reaches nobody but itself by moving, chatting, changing its avatar or
    disconnecting. *)
Theorem emissions_reach_the_rooms_named
    (now : Z) (e : Event) (st : State) (s : sid) (k : Socket)
    (t : Target) (ev : ServerEvent) (x : sid) :
  sender e = Some s →
  sockets st !! s = Some k →
  (t, ev) ∈ snd (step now e st) →
  x ∈ recipients (fst (step now e st)) t →
  (x = s ∨
   ∃ c, truthy c = true ∧
        (c = currentRoom k ∨
         ∃ r, e = JoinRoom s (JStr r) ∧ c = JStr (sanitizeString r)) ∧
        (c = JArr [] ∨
         ∃ q, q ∈ roomsNamed c ∧ x ∈ joined (fst (step now e st)) q)) ∧
  (truthy (currentRoom k) = false → (∀ roomId, e ≠ JoinRoom s roomId) → x = s).
Proof.
  intros Hs Hk Hin Hx.
  destruct (step_targets now e st s k t ev Hs Hk Hin)
    as [->|(c & Hc & Ht & Hwhich)].
  { cbn [recipients] in Hx. apply elem_of_singleton in Hx. by split; [left|]. }
  assert (x ∈ addressed (fst (step now e st)) c) as Ha.
  { destruct Ht as [-> | ->]; cbn [recipients] in Hx; [|done].
    by apply elem_of_difference in Hx as [? _]. }
  split.
  - right. exists c. split; [done|]. split; [done|]. by apply addressed_named.
  - intros Hf Hnj. destruct Hwhich as [->|(r & -> & _)].
    + by rewrite Hf in Hc.
    + by destruct (Hnj (JStr r)).
Qed.

(** Alice moves in the lobby, where Bob is: Bob is told. *)
Lemma emissions_reach_the_rooms_named_witness :
  let e := Move sA (xyz 1 0 0 0) in
  let t := SocketTo sA (JStr lobby) in
  let st' := fst (step 2000 e aliceAndBob) in
  sockets aliceAndBob !! sA
    = Some (mkSocket (u "10.0.0.1") (JStr (u "Alice")) defaultAvatar defaultPosition
              (JStr lobby) 0) ∧
  (t, EvUserMoved sA (xyz 1 0 0 0)) ∈ snd (step 2000 e aliceAndBob) ∧
  sB ∈ recipients st' t ∧
  (sB = sA ∨
   ∃ c, truthy c = true ∧
        (c = JStr lobby ∨
         ∃ r, e = JoinRoom sA (JStr r) ∧ c = JStr (sanitizeString r)) ∧
        (c = JArr [] ∨ ∃ q, q ∈ roomsNamed c ∧ sB ∈ joined st' q)).
Proof.
  cbv zeta.
  match goal with |- ?A ∧ _ => assert A as Hk by (vm_compute; reflexivity) end.
  match goal with |- _ ∧ ?A ∧ _ => assert A as Hin by (vm_compute; left) end.
  match goal with
  | |- _ ∧ _ ∧ ?A ∧ _ =>
      assert A as Hx by (apply (bool_decide_unpack _); vm_compute; exact I)
  end.
  split; [exact Hk|]. split; [exact Hin|]. split; [exact Hx|].
  exact (proj1 (emissions_reach_the_rooms_named 2000 (Move sA (xyz 1 0 0 0))
                  aliceAndBob sA _ _ _ sB eq_refl Hk Hin Hx)).
Defined.

(** [initializeUser] stores whatever [room] the client sends. With an
    array of two names Alice, who has joined neither room, chats to
    both. *)
Example array_room_reaches_both_rooms :
  let r1 := u "r1" in
  let r2 := u "r2" in
  let both := JArr [JStr r1; JStr r2] in
  let st := fst (run [(1000, Connection sA (u "10.0.0.1"));
                      (1000, InitializeUser sA
                               (JObj [("username", JStr (u "Alice"));
                                      ("room", both)]%string));
                      (1000, Connection sB (u "10.0.0.2"));
                      (1000, JoinRoom sB (JStr r1));
                      (1000, Connection sC (u "10.0.0.3"));
                      (1000, JoinRoom sC (JStr r2))] initial) in
  let '(st', out) := sendMessage sA 1200 (u "k3j9x0q2a")
                       (JObj [("message", JStr (u "hi"))]%string) st in
  fst <$> out = [IoTo both] ∧
  recipients st' (IoTo both) = {[sB; sC]}.
Proof. vm_compute. split; reflexivity. Qed.

(** With the empty array as [room] a move of Alice goes to every other
    connection, none of which has joined any room. *)
Example empty_array_room_reaches_everyone :
  let st := fst (run [(1000, Connection sA (u "10.0.0.1"));
                      (1000, InitializeUser sA
                               (JObj [("username", JStr (u "Alice"));
                                      ("room", JArr [])]%string));
                      (1000, Connection sB (u "10.0.0.2"));
                      (1000, Connection sC (u "10.0.0.3"))] initial) in
  let '(st', out) := move sA 1200 (xyz 1 0 0 0) st in
  out = [(SocketTo sA (JArr []), EvUserMoved sA (xyz 1 0 0 0))] ∧
  recipients st' (SocketTo sA (JArr [])) = {[sB; sC]}.
Proof. vm_compute. split; reflexivity. Qed.

(** ** The sweep only deletes, and once is enough *)

Lemma cleanupUser_fields now st e :
  sockets (cleanupUser now st e) = sockets st ∧
  adapter (cleanupUser now st e) = adapter st ∧
  ipConnections (cleanupUser now st e) = ipConnections st.
Proof.
  destruct e as [x d]. unfold cleanupUser.
  destruct (_ >? _); [|done]. destruct (truthy _); [|done].
  by destruct (room d).
Qed.

Lemma sweep_fields now l st :
  sockets (foldl (cleanupUser now) st l) = sockets st ∧
  adapter (foldl (cleanupUser now) st l) = adapter st ∧
  ipConnections (foldl (cleanupUser now) st l) = ipConnections st.
Proof.
  revert st. induction l as [|e l IH]; intros st; [done|]. cbn [foldl].
  destruct (IH (cleanupUser now st e)) as (-> & -> & ->).
  apply cleanupUser_fields.
Qed.

Lemma sweep_nothing_to_do now l st :
  Forall (fun e => ¬ expired now (snd e)) l → foldl (cleanupUser now) st l = st.
Proof.
  revert st. induction l as [|[x d] l IH]; intros st H; [done|].
  apply Forall_cons in H as [Hd Hl]. cbn [foldl].
  assert (cleanupUser now st (x, d) = st) as ->; [|by apply IH].
  unfold cleanupUser. cbn [snd] in Hd.
  destruct (now - lastActivity d >? timeout) eqn:T; [|done].
  by apply expired_test in T.
Qed.

Lemma sweep_survivors now st x d :
  connectedUsers (cleanupInactiveUsers now st) !! x = Some d →
  connectedUsers st !! x = Some d ∧ ¬ expired now d.
Proof.
  unfold cleanupInactiveUsers. intros H.
  destruct (connectedUsers st !! x) as [d0|] eqn:E.
  - destruct (now - lastActivity d0 >? timeout) eqn:T.
    + apply expired_test in T.
      rewrite (sweep_users_removed now _ st x d0) in H; [done| |done].
      by apply elem_of_map_to_list.
    + rewrite sweep_users_kept in H.
      * rewrite E in H. injection H as <-. split; [done|].
        intros He. apply expired_test in He. congruence.
      * intros d' Hd'. apply elem_of_map_to_list in Hd'.
        assert (d' = d0) as -> by congruence.
        intros He. apply expired_test in He. congruence.
  - by rewrite sweep_users_stay_absent in H.
Qed.

(** X5. The inactivity sweep only deletes: it leaves every connection,
    the Socket.IO membership and the per-address counters as they were
    (a swept user's socket stays open and joined) and never adds a member
    to a room. Running it again at the same instant changes nothing, and
    when no record is older than five minutes it changes nothing at all. *)
Theorem sweep_only_deletes_and_is_idempotent (now : Z) (st : State) :
  let st' := cleanupInactiveUsers now st in
  cleanupInactiveUsers now st' = st' ∧
  sockets st' = sockets st ∧
  adapter st' = adapter st ∧
  ipConnections st' = ipConnections st ∧
  (∀ r, members st' r ⊆ members st r) ∧
  ((∀ x d, connectedUsers st !! x = Some d → now - lastActivity d <= 5 * 60 * 1000) →
   st' = st).
Proof.
  intros st'.
  destruct (sweep_fields now (map_to_list (connectedUsers st)) st) as (Hs & Ha & Hi).
  split; [|split; [exact Hs|split; [exact Ha|split; [exact Hi|split]]]].
  - unfold cleanupInactiveUsers at 1. apply sweep_nothing_to_do.
    apply Forall_forall. intros [x d] Hin. apply elem_of_map_to_list in Hin.
    by destruct (sweep_survivors now st x d Hin).
  - intros r. apply sweep_members_subseteq.
  - intros Hfresh. unfold st', cleanupInactiveUsers. apply sweep_nothing_to_do.
    apply Forall_forall. intros [x d] Hin. apply elem_of_map_to_list in Hin.
    cbn [snd]. unfold expired, timeout. specialize (Hfresh x d Hin). lia.
Qed.

Lemma sweep_only_deletes_and_is_idempotent_witness :
  let st' := cleanupInactiveUsers 302000 staleAlice in
  cleanupInactiveUsers 302000 st' = st' ∧
  is_Some (sockets st' !! sA) ∧
  connectedUsers st' !! sA = None ∧
  sA ∈ joined st' lobby ∧
  cleanupInactiveUsers 3500 staleAlice = staleAlice.
Proof.
  cbv zeta.
  destruct (sweep_only_deletes_and_is_idempotent 302000 staleAlice)
    as (W1 & W2 & W3 & _).
  destruct (sweep_only_deletes_and_is_idempotent 3500 staleAlice)
    as (_ & _ & _ & _ & _ & W6).
  split; [exact W1|]. split; [rewrite W2; vm_compute; by eexists|].
  split; [vm_compute; reflexivity|].
  split; [unfold joined; rewrite W3; apply (bool_decide_unpack _); vm_compute; exact I|].
  apply W6.
  apply (bool_decide_unpack
           (map_Forall (fun _ d => 3500 - lastActivity d <= 5 * 60 * 1000)
                       (connectedUsers staleAlice))).
  vm_compute. exact I.
Defined.

(** ** The avatar built by [updateAvatar] *)

Lemma filter_is_string_all l : forallb is_string (List.filter is_string l) = true.
Proof.
  induction l as [|x l IH]; [done|]. simpl.
  destruct (is_string x) eqn:E; [|done]. simpl. by rewrite E, IH.
Qed.

Lemma defaultPosition_valid : validatePosition defaultPosition = true.
Proof. vm_compute. reflexivity. Qed.

(** X6. Whatever the payload, the avatar [updateAvatar] builds is an
    object whose color matches [#RRGGBB], whose position passes
    [validatePosition], whose accessories are all strings and whose [id],
    [name] and [model] are strings without [<] or [>]. Sending that
    avatar back through the same validation keeps its color, accessories
    and position. *)
Theorem validAvatarOf_is_well_formed (a : JsVal) :
  let va := validAvatarOf a in
  truthy va = true ∧ typeof va = "object"%string ∧
  (∃ c, prop va "color" = JStr c ∧ isHexColor c = true) ∧
  validatePosition (prop va "position") = true ∧
  (∃ l, prop va "accessories" = JArr l ∧ forallb is_string l = true) ∧
  (∀ f, f ∈ ["id"; "name"; "model"]%string →
        ∃ x, prop va f = JStr x ∧ (lt_sign ∉ x) ∧ (gt_sign ∉ x)) ∧
  prop (validAvatarOf va) "color" = prop va "color" ∧
  prop (validAvatarOf va) "accessories" = prop va "accessories" ∧
  prop (validAvatarOf va) "position" = prop va "position".
Proof.
  intros va.
  assert (∃ c, prop va "color" = JStr c ∧ isHexColor c = true) as Hc.
  { unfold va, validAvatarOf. simpl.
    destruct (prop a "color") as [| | | |c| |]; try (by eexists).
    destruct (isHexColor c) eqn:E; by eexists. }
  assert (validatePosition (prop va "position") = true) as Hp.
  { unfold va, validAvatarOf. cbn [prop assoc String.eqb Ascii.eqb Bool.eqb].
    destruct (validatePosition (prop a "position")) eqn:E;
      [exact E|exact defaultPosition_valid]. }
  assert (∃ l, prop va "accessories" = JArr l ∧ forallb is_string l = true) as Hl.
  { unfold va, validAvatarOf. simpl.
    destruct (prop a "accessories") as [| | | | |l|]; try (by eexists).
    eexists. split; [done|]. apply filter_is_string_all. }
  split; [done|]. split; [done|]. split; [exact Hc|]. split; [exact Hp|].
  split; [exact Hl|]. split; [|split; [|split]].
  - intros f Hf. unfold va, validAvatarOf.
    assert (∀ v dflt, lt_sign ∉ dflt → gt_sign ∉ dflt →
              ∃ x, match v with
                   | JStr y => JStr (sanitizeString y)
                   | _ => JStr dflt
                   end = JStr x ∧ (lt_sign ∉ x) ∧ (gt_sign ∉ x)) as Hfield.
    { intros v dflt H1 H2. destruct v; try (by eexists).
      eexists. split; [done|]. unfold sanitizeString.
      split; intros H; by destruct (strip_angle_clean _ _ H). }
    apply elem_of_cons in Hf as [->|Hf]; [|apply elem_of_cons in Hf as [->|Hf];
      [|apply list_elem_of_singleton in Hf as ->]];
      cbn [prop assoc String.eqb Ascii.eqb Bool.eqb]; apply Hfield;
      intros H; apply (bool_decide_pack _) in H; vm_compute in H; exact H.
  - destruct Hc as (c & Hc & Hhex). rewrite Hc.
    unfold validAvatarOf at 1. cbn [prop assoc String.eqb Ascii.eqb Bool.eqb].
    fold va. by rewrite Hc, Hhex.
  - destruct Hl as (l & Hl & Hall). rewrite Hl.
    unfold validAvatarOf at 1. cbn [prop assoc String.eqb Ascii.eqb Bool.eqb].
    fold va. rewrite Hl. f_equal.
    clear Hl. induction l as [|x l IH]; [done|]. simpl in *.
    apply andb_prop in Hall as [Hx Hall]. rewrite Hx. f_equal. by apply IH.
  - unfold validAvatarOf at 1. cbn [prop assoc String.eqb Ascii.eqb Bool.eqb].
    fold va. by rewrite Hp.
Qed.

(** ** What the Registry always holds *)

Lemma registry_ok_frame st st' :
  connectedUsers st' = connectedUsers st → sockets st' = sockets st →
  registry_ok st → registry_ok st'.
Proof.
  intros Hu Hs H x d Hx. rewrite Hu in Hx.
  destruct (H x d Hx) as (? & ? & ? & ? & ? & ? & ? & k & Hk & ?).
  unfold record_ok; split_and!; try done. exists k. by rewrite Hs.
Qed.

Lemma registry_ok_subset st st' :
  (∀ x d, connectedUsers st' !! x = Some d → connectedUsers st !! x = Some d) →
  sockets st' = sockets st →
  registry_ok st → registry_ok st'.
Proof.
  intros Hu Hs H x d Hx. apply Hu in Hx.
  destruct (H x d Hx) as (? & ? & ? & ? & ? & ? & ? & k & Hk & ?).
  unfold record_ok; split_and!; try done. exists k. by rewrite Hs.
Qed.

Lemma registry_ok_updateActivity s now st :
  registry_ok st → registry_ok (updateActivity s now st).
Proof.
  intros H x d Hx. rewrite updateActivity_lookup in Hx.
  assert (∃ d0, connectedUsers st !! x = Some d0 ∧
                (d = d0 ∨ d = with_lastActivity now d0)) as (d0 & Hd0 & Hd).
  { case_decide; [|exists d; split; [done|by left]].
    destruct (connectedUsers st !! x) as [d0|]; [|done].
    injection Hx as <-. eexists. split; [done|by right]. }
  destruct (H x d0 Hd0) as (? & ? & ? & ? & ? & ? & ? & k & Hk & ? & ? & ? & ?).
  assert (record_ok st x d) as (? & ? & ? & ? & ? & ? & ? & k' & ? & ?).
  { destruct Hd as [->| ->]; unfold record_ok; split_and!; try done; by exists k. }
  unfold record_ok; split_and!; try done. exists k'. by rewrite updateActivity_sockets.
Qed.

(** The socket of [s] is replaced by one with the same [socket.data]. *)
Lemma registry_ok_socket st st' s k k' :
  connectedUsers st' = connectedUsers st →
  sockets st' = <[s := k']> (sockets st) →
  sockets st !! s = Some k →
  data_username k' = data_username k → data_avatar k' = data_avatar k →
  data_position k' = data_position k → currentRoom k' = currentRoom k →
  registry_ok st → registry_ok st'.
Proof.
  intros Hu Hs Hk E1 E2 E3 E4 H x d Hx. rewrite Hu in Hx.
  destruct (H x d Hx) as (? & ? & ? & ? & ? & ? & ? & k0 & Hk0 & M1 & M2 & M3 & M4).
  unfold record_ok; split_and!; try done. rewrite Hs, lookup_insert. case_decide.
  - subst x. assert (k0 = k) as -> by congruence. exists k'.
    split; [done|]. unfold mirrors. by rewrite E1, E2, E3, E4.
  - by exists k0.
Qed.

(** The record and the socket of [s] are replaced together. *)
Lemma registry_ok_update st st' s d' k' :
  connectedUsers st' = <[s := d']> (connectedUsers st) →
  sockets st' = <[s := k']> (sockets st) →
  id d' = s → username_ok (username d') →
  validatePosition (position d') = true → truthy (room d') = true →
  truthy (avatar d') = true →
  connectionCount d' = 1 → isActive d' = true → mirrors k' d' →
  registry_ok st → registry_ok st'.
Proof.
  intros Hu Hs ? ? ? ? ? ? ? ? H x d Hx. rewrite Hu, lookup_insert in Hx.
  case_decide.
  - subst x. injection Hx as <-. unfold record_ok; split_and!; try done.
    exists k'. by rewrite Hs, lookup_insert_eq.
  - destruct (H x d Hx) as (? & ? & ? & ? & ? & ? & ? & k0 & Hk0 & ?).
    unfold record_ok; split_and!; try done. exists k0. by rewrite Hs, lookup_insert_ne.
Qed.

Lemma or_else_truthy a b : truthy b = true → truthy (or_else a b) = true.
Proof. unfold or_else. by destruct (truthy a) eqn:E. Qed.

Lemma validateUserData_username userData :
  validateUserData userData = true →
  ∃ name, prop userData "username" = JStr name ∧
          username_ok (sanitizeString name).
Proof.
  unfold validateUserData.
  destruct (negb (truthy userData) || negb (typeof userData =? "object")%string);
    [done|].
  destruct (prop userData "username") as [| | | |name| |]; try done.
  destruct (negb (truthy (JStr name))); [done|]. cbv zeta.
  intros [H1 H2]%andb_prop. exists name. split; [done|].
  apply Nat.ltb_lt in H1. apply Nat.leb_le in H2.
  split; [split; [lia|exact H2]|].
  unfold sanitizeString. split; intros H; by destruct (strip_angle_clean _ _ H).
Qed.

Lemma socket_leave_fields s key st :
  connectedUsers (socket_leave s key st) = connectedUsers st ∧
  sockets (socket_leave s key st) = sockets st ∧
  rooms (socket_leave s key st) = rooms st ∧
  ipConnections (socket_leave s key st) = ipConnections st.
Proof. by destruct key. Qed.

Lemma removeFromRoom_users s key st :
  connectedUsers (removeFromRoom s key st) = connectedUsers st.
Proof. apply removeFromRoom_fields. Qed.

Lemma removeFromRoom_sockets s key st :
  sockets (removeFromRoom s key st) = sockets st.
Proof. apply removeFromRoom_fields. Qed.

Lemma removeFromRoom_ipConnections s key st :
  ipConnections (removeFromRoom s key st) = ipConnections st.
Proof. apply removeFromRoom_fields. Qed.

Lemma socket_leave_users s key st :
  connectedUsers (socket_leave s key st) = connectedUsers st.
Proof. apply socket_leave_fields. Qed.

Lemma socket_leave_sockets s key st :
  sockets (socket_leave s key st) = sockets st.
Proof. apply socket_leave_fields. Qed.

Lemma socket_leave_ipConnections s key st :
  ipConnections (socket_leave s key st) = ipConnections st.
Proof. apply socket_leave_fields. Qed.

Lemma updateActivity_ipConnections s now st :
  ipConnections (updateActivity s now st) = ipConnections st.
Proof. apply updateActivity_fields. Qed.

Create Rewrite HintDb frame.
Hint Rewrite removeFromRoom_users removeFromRoom_sockets
  removeFromRoom_ipConnections socket_leave_users socket_leave_sockets
  socket_leave_ipConnections updateActivity_sockets
  updateActivity_ipConnections : frame.

Ltac frame := proj; autorewrite with frame in *; proj.

(** The Registry and the connections a valid [joinRoom] leaves. *)
Lemma joinRoom_users_sockets s now r st k :
  sockets st !! s = Some k →
  validateRoomId (JStr r) = true →
  let st1 := updateActivity s now st in
  let st' := fst (joinRoom s now (JStr r) st) in
  let r' := sanitizeString r in
  sockets st' = <[s := with_currentRoom (JStr r') k]> (sockets st) ∧
  connectedUsers st' =
    match connectedUsers st1 !! s with
    | Some d => <[s := with_lastActivity now (with_room (JStr r') d)]>
                  (connectedUsers st1)
    | None => connectedUsers st1
    end.
Proof.
  intros Hk Hv st1 st' r'. unfold st', joinRoom. rewrite Hk, Hv.
  cbn [negb fst]. cbv zeta. fold st1. fold r'.
  subst st1. destruct (truthy (currentRoom k)); frame;
    (destruct (connectedUsers (updateActivity s now st) !! s); frame; done).
Qed.

Lemma registry_ok_unregistered_socket st st' s k' :
  connectedUsers st' = connectedUsers st →
  sockets st' = <[s := k']> (sockets st) →
  connectedUsers st !! s = None →
  registry_ok st → registry_ok st'.
Proof.
  intros Hu Hs Hn H x d Hx. rewrite Hu in Hx.
  destruct (H x d Hx) as (? & ? & ? & ? & ? & ? & ? & k0 & Hk0 & ?).
  unfold record_ok; split_and!; try done. exists k0.
  rewrite Hs, lookup_insert_ne; [done|]. intros ->. congruence.
Qed.

Lemma joinRoom_registry_ok s now roomId st :
  registry_ok st → registry_ok (fst (joinRoom s now roomId st)).
Proof.
  intros H. destruct (sockets st !! s) as [k|] eqn:Hk.
  2:{ unfold joinRoom. by rewrite Hk. }
  pose proof (registry_ok_updateActivity s now st H) as H1.
  destruct (validateRoomId roomId) eqn:Hv.
  2:{ unfold joinRoom. by rewrite Hk, Hv. }
  destruct roomId as [| | | |r| |]; try discriminate Hv.
  destruct (joinRoom_users_sockets s now r st k Hk Hv) as [Hs Hu].
  cbv zeta in Hs, Hu. rewrite <- (updateActivity_sockets s now st) in Hs.
  destruct (connectedUsers (updateActivity s now st) !! s) as [d|] eqn:Hd.
  - destruct (H1 s d Hd) as (? & ? & ? & ? & ? & ? & ? & k0 & Hk0 & M1 & M2 & M3 & M4).
    rewrite updateActivity_sockets, Hk in Hk0. injection Hk0 as <-.
    apply (registry_ok_update _ _ s _ _ Hu Hs); try done;
      try (by unfold mirrors; split_and!).
    pose proof (valid_room_nonempty r Hv) as Hne. simpl.
    by destruct (sanitizeString r).
  - by apply (registry_ok_unregistered_socket _ _ s _ Hu Hs).
Qed.

Lemma move_registry_ok s now p st :
  registry_ok st → registry_ok (fst (move s now p st)).
Proof.
  intros H. unfold move. destruct (sockets st !! s) as [k|] eqn:Hk; [|done].
  pose proof (registry_ok_updateActivity s now st H) as H1. cbv zeta.
  set (st1 := updateActivity s now st) in *.
  assert (sockets st1 !! s = Some k) as Hk1
    by (unfold st1; by rewrite updateActivity_sockets).
  destruct (_ <? _); [done|].
  assert (registry_ok (set_socket s (with_lastMoveTime now k) st1)) as H2.
  { by apply (registry_ok_socket st1 _ s k (with_lastMoveTime now k)). }
  destruct (negb _) eqn:Hp; [done|]. apply negb_false_iff in Hp.
  cbn [with_lastMoveTime currentRoom].
  destruct (truthy (currentRoom k)) eqn:Ht; [|done]. cbn [fst].
  set (k3 := with_data_position p _).
  destruct (connectedUsers _ !! s) as [d|] eqn:Hd; proj.
  - destruct (H1 s d Hd) as (? & ? & ? & ? & ? & ? & ? & k0 & Hk0 & M1 & M2 & M3 & M4).
    assert (k0 = k) as -> by congruence.
    eapply (registry_ok_update st1 _ s _ k3); try done; proj;
      try (by rewrite insert_insert_eq); try (by unfold mirrors; split_and!).
  - eapply (registry_ok_unregistered_socket st1 _ s k3); try done; proj;
      try (by rewrite insert_insert_eq).
Qed.

Lemma sendMessage_registry_ok s now rnd data st :
  registry_ok st → registry_ok (fst (sendMessage s now rnd data st)).
Proof.
  intros H. unfold sendMessage. destruct (sockets st !! s); [|done].
  pose proof (registry_ok_updateActivity s now st H) as H1. cbv zeta.
  by split_cases.
Qed.

Lemma updateAvatar_registry_ok s now a st :
  registry_ok st → registry_ok (fst (updateAvatar s now a st)).
Proof.
  intros H. unfold updateAvatar. destruct (sockets st !! s) as [k|] eqn:Hk; [|done].
  pose proof (registry_ok_updateActivity s now st H) as H1. cbv zeta.
  set (st1 := updateActivity s now st) in *.
  assert (sockets st1 !! s = Some k) as Hk1
    by (unfold st1; by rewrite updateActivity_sockets).
  destruct (_ || _); [done|].
  set (k2 := with_data_avatar _ k).
  assert (registry_ok
            match connectedUsers (set_socket s k2 st1) !! s with
            | Some userData =>
                set_connectedUsers
                  (fun m => <[s := with_lastActivity now
                                     (with_avatar (validAvatarOf a) userData)]> m)
                  (set_socket s k2 st1)
            | None => set_socket s k2 st1
            end) as H2; [|by destruct (truthy (currentRoom k))].
  proj. destruct (connectedUsers st1 !! s) as [d|] eqn:Hd.
  - destruct (H1 s d Hd) as (? & ? & ? & ? & ? & ? & ? & k0 & Hk0 & M1 & M2 & M3 & M4).
    assert (k0 = k) as -> by congruence.
    eapply (registry_ok_update st1 _ s _ k2); try done;
      try (by unfold mirrors; split_and!).
  - by eapply (registry_ok_unregistered_socket st1 _ s k2).
Qed.

Lemma initializeUser_registry_ok s now userData st :
  registry_ok st → registry_ok (fst (initializeUser s now userData st)).
Proof.
  intros H. unfold initializeUser.
  destruct (sockets st !! s) as [k|] eqn:Hk; [|done].
  pose proof (registry_ok_updateActivity s now st H) as H1. cbv zeta.
  set (st1 := updateActivity s now st) in *.
  destruct (validateUserData userData) eqn:Hv; [|done]. cbn [negb].
  destruct (validateUserData_username userData Hv) as (name & -> & Hname).
  cbn [fst].
  eapply (registry_ok_update st1 _ s); try done;
    cbn [position room avatar username data_position currentRoom data_avatar];
    try (by apply or_else_truthy); try (by unfold mirrors).
  destruct (validatePosition (prop userData "position")) eqn:E;
    [exact E|exact defaultPosition_valid].
Qed.

Lemma disconnect_registry_ok s st :
  registry_ok st → registry_ok (fst (disconnect s st)).
Proof.
  intros H. unfold disconnect. destruct (sockets st !! s) as [k|] eqn:Hk; [|done].
  cbv zeta.
  set (st1 := if _ >? 0 then _ else _).
  assert (connectedUsers st1 = connectedUsers st ∧ sockets st1 = sockets st)
    as [Hu Hs] by (unfold st1; by split_cases).
  intros x d Hx.
  assert (x ≠ s ∧ connectedUsers st !! x = Some d) as [Hne Hd].
  { destruct (truthy (currentRoom k)); frame; rewrite ?Hu in Hx;
      rewrite lookup_delete in Hx; (case_decide; [done|split; [congruence|done]]). }
  destruct (H x d Hd) as (? & ? & ? & ? & ? & ? & ? & k0 & Hk0 & ?).
  unfold record_ok; split_and!; try done. exists k0. split; [|done].
  destruct (truthy (currentRoom k)); frame; rewrite ?Hs;
    by rewrite lookup_delete_ne.
Qed.

Lemma sweep_users_subset now l st x d :
  connectedUsers (foldl (cleanupUser now) st l) !! x = Some d →
  connectedUsers st !! x = Some d.
Proof.
  revert st. induction l as [|[y e] l IH]; intros st H; [done|].
  cbn [foldl] in H. apply IH in H. rewrite cleanupUser_users in H.
  destruct (_ >? _); [|done]. rewrite lookup_delete in H. by case_decide.
Qed.

Lemma cleanupInactiveUsers_registry_ok now st :
  registry_ok st → registry_ok (cleanupInactiveUsers now st).
Proof.
  unfold cleanupInactiveUsers. apply registry_ok_subset.
  - intros x d. apply sweep_users_subset.
  - apply sweep_fields.
Qed.

Lemma onConnection_registry_ok s ip st :
  registry_ok st → registry_ok (onConnection s ip st).
Proof.
  intros H. unfold onConnection. destruct (sockets st !! s) eqn:Hs; [done|].
  cbv zeta. destruct (_ >=? _); [done|].
  eapply (registry_ok_unregistered_socket st _ s); try done.
  destruct (connectedUsers st !! s) as [d|] eqn:Hd; [|done].
  destruct (H s d Hd) as (_ & _ & _ & _ & _ & _ & _ & k0 & Hk0 & _). congruence.
Qed.

Lemma step_registry_ok now e st :
  registry_ok st → registry_ok (fst (step now e st)).
Proof.
  intros H. destruct e; cbn [step fst].
  - by apply onConnection_registry_ok.
  - by apply joinRoom_registry_ok.
  - by apply move_registry_ok.
  - by apply sendMessage_registry_ok.
  - by apply updateAvatar_registry_ok.
  - by apply initializeUser_registry_ok.
  - by apply disconnect_registry_ok.
  - by apply cleanupInactiveUsers_registry_ok.
Qed.

(** An invariant of single steps holds after any run. *)
Lemma run_invariant (P : State → Prop) :
  (∀ now e st, P st → P (fst (step now e st))) →
  ∀ trace st, P st → P (fst (run trace st)).
Proof.
  intros Hstep trace. induction trace as [|[now e] trace IH]; intros st H; [done|].
  cbn [run]. pose proof (Hstep now e st H) as H1.
  destruct (step now e st) as [st1 out1]. specialize (IH st1 H1).
  by destruct (run trace st1).
Qed.

(** X7. After any run of events on a fresh server every record of the
    Registry is stored under its own [id], belongs to a connection that
    is still open, and repeats that connection's [socket.data] (user
    name, avatar, position, room); its user name has 1 to 50 code units
    and no [<] or [>]; its position passes [validatePosition]; its room
    and avatar are never empty values; its [connectionCount] is 1 and it
    is active. *)
Theorem registry_records_are_well_formed
    (trace : list (Z * Event)) (x : sid) (d : UserData) :
  connectedUsers (fst (run trace initial)) !! x = Some d →
  record_ok (fst (run trace initial)) x d.
Proof.
  revert x d. change (registry_ok (fst (run trace initial))).
  apply (run_invariant registry_ok).
  - intros now e st. apply step_registry_ok.
  - intros x d. unfold initial. proj. by rewrite lookup_empty.
Qed.

Lemma registry_records_are_well_formed_witness :
  ∃ d, connectedUsers aliceAndBob !! sB = Some d ∧ record_ok aliceAndBob sB d.
Proof.
  eexists. split; [vm_compute; reflexivity|].
  apply (registry_records_are_well_formed
           [(1000, Connection sA (u "10.0.0.1"));
            (1000, InitializeUser sA alice);
            (1000, JoinRoom sA (JStr lobby));
            (1100, Connection sB (u "10.0.0.2"));
            (1100, InitializeUser sB bob);
            (1100, JoinRoom sB (JStr lobby))]).
  vm_compute. reflexivity.
Defined.

(** ** What [socket.data] and the Room Index always hold *)

Lemma validateRoomId_roomname r :
  validateRoomId (JStr r) = true → roomname_ok (sanitizeString r).
Proof.
  unfold validateRoomId. destruct (negb (truthy (JStr r))); [done|]. cbv zeta.
  intros [H1 H2]%andb_prop. apply Nat.ltb_lt in H1. apply Nat.leb_le in H2.
  split; [split; [lia|exact H2]|].
  unfold sanitizeString. split; intros H; by destruct (strip_angle_clean _ _ H).
Qed.

Lemma removeMember_keys s c m r :
  is_Some (removeMember s c m !! r) → is_Some (m !! r).
Proof.
  unfold removeMember. destruct (m !! c) as [S|] eqn:E; [|done]. cbv zeta.
  destruct (Nat.eqb _ _).
  - rewrite lookup_delete. by case_decide; [intros [? ?]|].
  - rewrite lookup_insert. case_decide; [|done]. subst. by rewrite E.
Qed.

Lemma removeFromRoom_keys s key st r :
  is_Some (rooms (removeFromRoom s key st) !! r) → is_Some (rooms st !! r).
Proof. destruct key; try done. cbn [removeFromRoom]. proj. apply removeMember_keys. Qed.

(** Rooms are created by a valid [joinRoom] and by nothing else. *)
Lemma step_room_keys now e st r :
  is_Some (rooms (fst (step now e st)) !! r) →
  is_Some (rooms st !! r) ∨
  ∃ s r0, e = JoinRoom s (JStr r0) ∧ validateRoomId (JStr r0) = true ∧
          r = sanitizeString r0.
Proof.
  destruct e; cbn [step fst].
  - rewrite onConnection_rooms. by left.
  - destruct (sockets st !! s) as [k|] eqn:Hk.
    2:{ unfold joinRoom. rewrite Hk. by left. }
    destruct (validateRoomId roomId) eqn:Hv.
    2:{ unfold joinRoom. rewrite Hk, Hv. cbn [negb fst].
        rewrite updateActivity_rooms. by left. }
    destruct roomId as [| | | |r0| |]; try discriminate Hv.
    rewrite (joinRoom_rooms s now r0 st k Hk Hv). unfold roomsAfterJoin. cbv zeta.
    rewrite lookup_insert. case_decide as Hr.
    + intros _. right. by exists s, r0.
    + intros H. left. destruct (currentRoom k); try done.
      destruct (truthy _); [by apply removeMember_keys in H|done].
  - rewrite move_rooms. by left.
  - rewrite sendMessage_rooms. by left.
  - rewrite updateAvatar_rooms. by left.
  - rewrite (proj1 (initializeUser_rooms _ _ _ _)). by left.
  - intros H. left. revert H. unfold disconnect.
    destruct (sockets st !! s) as [k|]; [|done]. cbv zeta.
    set (st1 := if _ >? 0 then _ else _).
    assert (rooms st1 = rooms st) as E by (unfold st1; by split_cases).
    destruct (truthy (currentRoom k)); proj; [|by rewrite E].
    intros H. apply removeFromRoom_keys in H. by rewrite E in H.
  - intros H. left. revert H. unfold cleanupInactiveUsers.
    generalize (map_to_list (connectedUsers st)). intros l. revert st.
    induction l as [|[x d] l IH]; intros st H; [done|]. cbn [foldl] in H.
    apply IH in H. revert H. unfold cleanupUser.
    destruct (_ >? _); [|done]. destruct (truthy _); [|done].
    intros H. by apply removeFromRoom_keys in H.
Qed.

Lemma socket_ok_new ip : socket_ok (newSocket ip).
Proof. unfold socket_ok, unset_or. cbn. tauto. Qed.

Lemma sockets_ok_insert st st' s k' :
  sockets st' = <[s := k']> (sockets st) → socket_ok k' →
  (∀ x k, sockets st !! x = Some k → socket_ok k) →
  ∀ x k, sockets st' !! x = Some k → socket_ok k.
Proof.
  intros Hs Hk' H x k. rewrite Hs, lookup_insert. case_decide.
  - by intros [= <-].
  - apply H.
Qed.

Lemma step_sockets_ok now e st :
  (∀ x k, sockets st !! x = Some k → socket_ok k) →
  ∀ x k, sockets (fst (step now e st)) !! x = Some k → socket_ok k.
Proof.
  intros H.
  assert (∀ st', sockets st' = sockets st →
            ∀ x k, sockets st' !! x = Some k → socket_ok k) as Hsame
    by (by intros st' ->).
  destruct e; cbn [step fst].
  - unfold onConnection. destruct (sockets st !! s); [done|]. cbv zeta.
    destruct (_ >=? _); [done|].
    eapply sockets_ok_insert; [proj; reflexivity|apply socket_ok_new|done].
  - destruct (sockets st !! s) as [k|] eqn:Hk.
    2:{ unfold joinRoom. by rewrite Hk. }
    destruct (validateRoomId roomId) eqn:Hv.
    2:{ unfold joinRoom. rewrite Hk, Hv. cbn [negb fst].
        apply Hsame, updateActivity_sockets. }
    destruct roomId as [| | | |r0| |]; try discriminate Hv.
    destruct (joinRoom_users_sockets s now r0 st k Hk Hv) as [Hs _].
    eapply sockets_ok_insert; [exact Hs| |done].
    destruct (H s k Hk) as (? & ? & ? & ?). unfold socket_ok. split_and!; try done.
    right. pose proof (valid_room_nonempty r0 Hv). simpl.
    by destruct (sanitizeString r0).
  - unfold move. destruct (sockets st !! s) as [k|] eqn:Hk; [|done]. cbv zeta.
    destruct (H s k Hk) as (? & ? & ? & ?).
    destruct (_ <? _); [apply Hsame, updateActivity_sockets|].
    assert (∀ x k0, sockets (set_socket s (with_lastMoveTime now k)
                               (updateActivity s now st)) !! x = Some k0 →
                    socket_ok k0) as Hmid.
    { eapply sockets_ok_insert; [frame; reflexivity|by unfold socket_ok|done]. }
    destruct (negb _) eqn:Hp; [done|]. apply negb_false_iff in Hp.
    cbn [with_lastMoveTime currentRoom].
    destruct (truthy (currentRoom k)); [|done]. cbn [fst].
    assert (socket_ok (with_data_position position_ (with_lastMoveTime now k))) as Hk3.
    { unfold socket_ok. cbn. split_and!; try done. by right. }
    destruct (connectedUsers _ !! s);
      (eapply sockets_ok_insert; [frame; by rewrite insert_insert_eq|exact Hk3|done]).
  - unfold sendMessage. destruct (sockets st !! s); [|done]. cbv zeta.
    split_cases; cbn [fst]; apply Hsame, updateActivity_sockets.
  - unfold updateAvatar. destruct (sockets st !! s) as [k|] eqn:Hk; [|done]. cbv zeta.
    destruct (H s k Hk) as (? & ? & ? & ?).
    destruct (_ || _); [apply Hsame, updateActivity_sockets|].
    assert (socket_ok (with_data_avatar (validAvatarOf avatar_) k)) as Hk2.
    { unfold socket_ok. cbn. split_and!; try done. by right. }
    destruct (connectedUsers _ !! s); destruct (truthy (currentRoom k));
      (eapply sockets_ok_insert; [frame; reflexivity|exact Hk2|done]).
  - unfold initializeUser. destruct (sockets st !! s) as [k|] eqn:Hk; [|done]. cbv zeta.
    destruct (validateUserData userData) eqn:Hv;
      [|cbn [negb fst]; apply Hsame, updateActivity_sockets].
    destruct (validateUserData_username userData Hv) as (name & -> & Hname).
    cbn [negb fst]. eapply sockets_ok_insert; [frame; reflexivity| |done].
    unfold socket_ok. cbn. split_and!; right.
    + by exists (sanitizeString name).
    + by apply or_else_truthy.
    + destruct (validatePosition (prop userData "position")) eqn:E;
        [exact E|exact defaultPosition_valid].
    + by apply or_else_truthy.
  - unfold disconnect. destruct (sockets st !! s) as [k|]; [|done]. cbv zeta.
    set (st1 := if _ >? 0 then _ else _).
    assert (sockets st1 = sockets st) as E by (unfold st1; by split_cases).
    intros x k0. destruct (truthy (currentRoom k)); frame; rewrite E;
      rewrite lookup_delete; (case_decide; [done|apply H]).
  - unfold cleanupInactiveUsers. apply Hsame, sweep_fields.
Qed.

Lemma step_sockets_and_rooms_ok now e st :
  sockets_and_rooms_ok st → sockets_and_rooms_ok (fst (step now e st)).
Proof.
  intros [Hs Hr]. split; [by apply step_sockets_ok|].
  intros r H. apply step_room_keys in H as [H|(s & r0 & _ & Hv & ->)].
  - by apply Hr.
  - by apply validateRoomId_roomname.
Qed.

(** X8. After any run of events on a fresh server, every room id of the
    Room Index is a sanitized name of 1 to 100 code units without [<] or
    [>], and each field of every connection's [socket.data] is either
    still [undefined] or valid: the user name is a sanitized string of 1
    to 50 code units, the position passes [validatePosition], the avatar
    and the current room are not empty values. *)
Theorem sockets_and_rooms_are_well_formed (trace : list (Z * Event)) :
  sockets_and_rooms_ok (fst (run trace initial)).
Proof.
  apply (run_invariant sockets_and_rooms_ok).
  - intros now e st. apply step_sockets_and_rooms_ok.
  - split.
    + intros x k. unfold initial. proj. by rewrite lookup_empty.
    + intros r. unfold initial. proj. rewrite lookup_empty. by intros [? ?].
Qed.

(** ** Connections per address *)

Section Counting.
Context (ip : jsstring).

Let from (m : gmap sid jsstring) : nat :=
  size (filter (fun entry : sid * jsstring => snd entry = ip) m).

Lemma from_insert_fresh m s a :
  m !! s = None →
  from (<[s := a]> m) = if decide (a = ip) then S (from m) else from m.
Proof.
  intros Hs. unfold from. case_decide as Ha.
  - rewrite map_filter_insert_True by done.
    rewrite map_size_insert_None; [done|].
    apply map_lookup_filter_None. by left.
  - rewrite map_filter_insert_False by done. by rewrite delete_id.
Qed.

Lemma from_delete m s a :
  m !! s = Some a →
  from m = if decide (a = ip) then S (from (delete s m)) else from (delete s m).
Proof.
  intros Hs. rewrite <- (insert_id m s a Hs) at 1.
  rewrite <- insert_delete_eq. apply from_insert_fresh, lookup_delete_eq.
Qed.
End Counting.

Ltac same_address Hk :=
  frame; split; [|reflexivity];
  rewrite ?fmap_insert, ?insert_insert_eq;
  first [ reflexivity
        | apply insert_id; rewrite lookup_fmap, Hk; reflexivity ].

(** Only a connection or a disconnection changes who is connected from
    where, and the counters. *)
Lemma step_keeps_addresses now e st :
  (∀ s ip, e ≠ Connection s ip) → (∀ s, e ≠ Disconnect s) →
  address <$> sockets (fst (step now e st)) = address <$> sockets st ∧
  ipConnections (fst (step now e st)) = ipConnections st.
Proof.
  intros Hc Hd. destruct e; cbn [step fst].
  - by destruct (Hc s clientIP).
  - unfold joinRoom. destruct (sockets st !! s) as [k|] eqn:Hk; [|done].
    cbv zeta. split_cases; same_address Hk.
  - unfold move. destruct (sockets st !! s) as [k|] eqn:Hk; [|done].
    cbv zeta. split_cases; same_address Hk.
  - unfold sendMessage. destruct (sockets st !! s) as [k|] eqn:Hk; [|done].
    cbv zeta. split_cases; same_address Hk.
  - unfold updateAvatar. destruct (sockets st !! s) as [k|] eqn:Hk; [|done].
    cbv zeta. split_cases; same_address Hk.
  - unfold initializeUser. destruct (sockets st !! s) as [k|] eqn:Hk; [|done].
    cbv zeta. split_cases; same_address Hk.
  - by destruct (Hd s).
  - unfold cleanupInactiveUsers.
    destruct (sweep_fields now (map_to_list (connectedUsers st)) st) as (-> & _ & ->).
    done.
Qed.

Lemma counter_is_liveFrom st ip :
  ip_ok st → default 0 (ipConnections st !! ip) = Z.of_nat (liveFrom st ip).
Proof.
  intros H. destruct (H ip) as [-> _]. case_decide as E; [|done]. by rewrite E.
Qed.

Lemma liveFrom_same st st' ip :
  address <$> sockets st' = address <$> sockets st → liveFrom st' ip = liveFrom st ip.
Proof. unfold liveFrom. by intros ->. Qed.

Lemma onConnection_ip_ok s ip0 st : ip_ok st → ip_ok (onConnection s ip0 st).
Proof.
  intros H. unfold onConnection. destruct (sockets st !! s) eqn:Hs; [done|].
  cbv zeta. rewrite (counter_is_liveFrom st ip0 H).
  destruct (_ >=? _) eqn:Hc; [done|].
  assert (Z.of_nat (liveFrom st ip0) < CONFIG.MAX_CONNECTIONS_PER_IP) as Hlt.
  { rewrite Z.geb_leb in Hc. by apply Z.leb_gt in Hc. }
  set (st' := socket_join s s _).
  assert (∀ ip, liveFrom st' ip =
                if decide (ip0 = ip) then S (liveFrom st ip) else liveFrom st ip) as Hn.
  { intros ip. unfold liveFrom, st'. proj. rewrite fmap_insert.
    apply from_insert_fresh. by rewrite lookup_fmap, Hs. }
  assert (ipConnections st' =
          <[ip0 := Z.of_nat (liveFrom st ip0) + 1]> (ipConnections st)) as Hi by done.
  intros ip. rewrite Hn, Hi. destruct (decide (ip0 = ip)) as [E|E].
  - subst ip. rewrite lookup_insert_eq. rewrite decide_False by done.
    split; [f_equal; lia|lia].
  - rewrite lookup_insert_ne by done. apply H.
Qed.

(** The state a [disconnect] leaves. *)
Lemma disconnect_shape s st k :
  sockets st !! s = Some k →
  let st' := fst (disconnect s st) in
  let c := default 0 (ipConnections st !! address k) in
  sockets st' = delete s (sockets st) ∧
  connectedUsers st' = delete s (connectedUsers st) ∧
  ipConnections st' =
    (if c >? 0
     then if c - 1 =? 0
          then delete (address k) (<[address k := c - 1]> (ipConnections st))
          else <[address k := c - 1]> (ipConnections st)
     else ipConnections st) ∧
  adapter st' = (fun joined => joined ∖ {[s]}) <$> adapter st.
Proof.
  intros Hk. unfold disconnect. rewrite Hk. cbv zeta.
  assert (ipConnections (socket_leaveAll s st) = ipConnections st) as -> by done.
  destruct (truthy (currentRoom k)); destruct (_ >? 0); try destruct (_ =? 0);
    frame; destruct (currentRoom k); done.
Qed.

Lemma disconnect_ip_ok s st : ip_ok st → ip_ok (fst (disconnect s st)).
Proof.
  intros H. destruct (sockets st !! s) as [k|] eqn:Hk.
  2:{ unfold disconnect. by rewrite Hk. }
  destruct (disconnect_shape s st k Hk) as (Hs & _ & Hi & _). cbv zeta in Hs, Hi.
  rewrite (counter_is_liveFrom st (address k) H) in Hi.
  assert (∀ ip, liveFrom st ip =
            if decide (address k = ip)
            then S (liveFrom (fst (disconnect s st)) ip)
            else liveFrom (fst (disconnect s st)) ip) as Hn.
  { intros ip. unfold liveFrom. rewrite Hs, fmap_delete.
    apply from_delete. by rewrite lookup_fmap, Hk. }
  pose proof (Hn (address k)) as Hn0. rewrite decide_True in Hn0 by done.
  assert ((Z.of_nat (liveFrom st (address k)) >? 0) = true) as Hpos.
  { rewrite Z.gtb_ltb. apply Z.ltb_lt. lia. }
  rewrite Hpos in Hi.
  intros ip. rewrite Hi. specialize (Hn ip). destruct (H ip) as [Hip Hb].
  destruct (decide (address k = ip)) as [E|E].
  - subst ip.
    destruct (Z.of_nat (liveFrom st (address k)) - 1 =? 0) eqn:Hz.
    + apply Z.eqb_eq in Hz. rewrite lookup_delete_eq.
      rewrite decide_True by lia. split; [done|lia].
    + apply Z.eqb_neq in Hz. rewrite lookup_insert_eq.
      rewrite decide_False by lia. split; [f_equal; lia|lia].
  - rewrite Hn in Hip, Hb.
    destruct (_ =? 0);
      rewrite ?lookup_delete_ne, ?lookup_insert_ne by done; done.
Qed.

Lemma step_ip_ok now e st : ip_ok st → ip_ok (fst (step now e st)).
Proof.
  intros H.
  destruct e as [s ip0| | | | | |s|] eqn:He;
    try (destruct (step_keeps_addresses now e st) as [Ha Hi];
         [by subst e|by subst e|subst e;
          intros ip; rewrite Hi, (liveFrom_same _ _ ip Ha); apply H]).
  - by apply onConnection_ip_ok.
  - by apply disconnect_ip_ok.
Qed.

(** X9. After any run of events on a fresh server the counter kept for
    an address equals the number of open connections from that address,
    an address without open connections has no counter, and no address
    ever has more than ten open connections. *)
Theorem connections_per_address_are_counted_and_capped
    (trace : list (Z * Event)) (ip : jsstring) :
  let st := fst (run trace initial) in
  ipConnections st !! ip =
    (if decide (liveFrom st ip = 0%nat) then None
     else Some (Z.of_nat (liveFrom st ip))) ∧
  Z.of_nat (liveFrom st ip) <= 10.
Proof.
  revert ip. change (ip_ok (fst (run trace initial))).
  apply (run_invariant ip_ok).
  - intros now e st. apply step_ip_ok.
  - intros ip. unfold liveFrom, initial. proj.
    rewrite fmap_empty, map_filter_empty, map_size_empty, lookup_empty.
    split; [done|]. unfold CONFIG.MAX_CONNECTIONS_PER_IP. lia.
Qed.

(** ** The figures of the health endpoint *)

Lemma total_insert_fresh (m : gmap jsstring Z) k v :
  m !! k = None →
  map_fold (fun _ count sum => sum + count) 0 (<[k := v]> m) =
  map_fold (fun _ count sum => sum + count) 0 m + v.
Proof.
  intros H.
  apply (map_fold_insert_L (fun (_ : jsstring) (count sum : Z) => sum + count) 0 k v m);
    [intros; lia|done].
Qed.

Lemma total_delete (m : gmap jsstring Z) k :
  map_fold (fun _ count sum => sum + count) 0 (delete k m) =
  map_fold (fun _ count sum => sum + count) 0 m - default 0 (m !! k).
Proof.
  destruct (m !! k) as [x|] eqn:E; simpl.
  - rewrite <- (insert_id m k x E) at 2. rewrite <- insert_delete_eq.
    rewrite total_insert_fresh by apply lookup_delete_eq. lia.
  - rewrite delete_id by done. lia.
Qed.

Lemma total_insert (m : gmap jsstring Z) k v :
  map_fold (fun _ count sum => sum + count) 0 (<[k := v]> m) =
  map_fold (fun _ count sum => sum + count) 0 m - default 0 (m !! k) + v.
Proof.
  rewrite <- insert_delete_eq.
  rewrite total_insert_fresh by apply lookup_delete_eq.
  rewrite total_delete. lia.
Qed.

Lemma step_total_ok now e st : total_ok st → total_ok (fst (step now e st)).
Proof.
  intros [Hip Ht]. split; [by apply step_ip_ok|].
  unfold health in *. cbn [health_totalConnections] in *.
  destruct e as [s ip0| | | | | |s|] eqn:He;
    try (destruct (step_keeps_addresses now e st) as [Ha Hi];
         [by subst e|by subst e|subst e; rewrite Hi, Ht;
          by rewrite <- (map_size_fmap address (sockets st)), <- Ha, map_size_fmap]).
  - cbn [step fst]. unfold onConnection.
    destruct (sockets st !! s) eqn:Hs; [done|]. cbv zeta.
    destruct (_ >=? _); [done|]. frame.
    rewrite total_insert, map_size_insert_None by done. lia.
  - cbn [step]. destruct (sockets st !! s) as [k|] eqn:Hk.
    2:{ unfold disconnect. by rewrite Hk. }
    destruct (disconnect_shape s st k Hk) as (Hs & _ & Hi & _). cbv zeta in Hs, Hi.
    rewrite Hs, Hi, map_size_delete_Some by (by eexists). clear Hi.
    assert (0 < size (sockets st))%nat as Hpos.
    { destruct (size (sockets st)) eqn:E; [|lia].
      apply map_size_empty_inv in E. by rewrite E, lookup_empty in Hk. }
    rewrite (counter_is_liveFrom st (address k) Hip).
    assert (0 < liveFrom st (address k))%nat as Hlive.
    { unfold liveFrom.
      rewrite (from_delete (address k) _ s (address k)) by (by rewrite lookup_fmap, Hk).
      rewrite decide_True by done. lia. }
    assert ((Z.of_nat (liveFrom st (address k)) >? 0) = true) as ->.
    { rewrite Z.gtb_ltb. apply Z.ltb_lt. lia. }
    destruct (_ =? 0) eqn:Hz.
    + apply Z.eqb_eq in Hz. rewrite total_delete, total_insert, lookup_insert_eq.
      rewrite (counter_is_liveFrom st (address k) Hip). simpl. lia.
    + rewrite total_insert, (counter_is_liveFrom st (address k) Hip). lia.
Qed.

(** X10. After any run of events on a fresh server the health endpoint
    reports as [totalConnections] exactly the number of open connections,
    and as [connectedUsers] a number that is never larger. *)
Theorem health_counts_open_connections (trace : list (Z * Event)) :
  let st := fst (run trace initial) in
  health_totalConnections (health st) = Z.of_nat (size (sockets st)) ∧
  (health_connectedUsers (health st) ≤ size (sockets st))%nat.
Proof.
  intros st. split.
  - apply (run_invariant total_ok).
    + intros now e st0. apply step_total_ok.
    + split; [|done]. intros ip. unfold liveFrom, initial. proj.
      rewrite fmap_empty, map_filter_empty, map_size_empty, lookup_empty.
      split; [done|]. unfold CONFIG.MAX_CONNECTIONS_PER_IP. lia.
  - assert (registry_ok st) as H.
    { apply (run_invariant registry_ok).
      + intros now e st0. apply step_registry_ok.
      + intros x d. unfold initial. proj. by rewrite lookup_empty. }
    unfold health. cbn [health_connectedUsers].
    rewrite <- !(size_dom (D := gset sid)). apply subseteq_size.
    intros x Hx. apply elem_of_dom in Hx as [d Hd]. apply elem_of_dom.
    destruct (H x d Hd) as (_ & _ & _ & _ & _ & _ & _ & k & Hk & _). by eexists.
Qed.

(** Three connections, one of them initialized, one gone again. *)
Example health_example :
  health (fst (run [(1000, Connection sA (u "10.0.0.1"));
                    (1000, InitializeUser sA alice);
                    (1000, JoinRoom sA (JStr lobby));
                    (1100, Connection sB (u "10.0.0.1"));
                    (1200, Connection (u "sockC") (u "10.0.0.2"));
                    (1300, Disconnect sB)] initial))
  = mkHealthData 1 1 2.
Proof. vm_compute. reflexivity. Qed.

(** * Further properties of the client store *)

(** ** Validation *)

(** X11. The client and the server accept exactly the same position
    payloads. *)
Theorem position_validators_agree (position : JsVal) :
  Client.validatePosition position = Server.validatePosition position.
Proof.
  unfold Client.validatePosition, Server.validatePosition.
  destruct position as [| |b|f|s|items|fields]; try reflexivity.
  - by destruct b.
  - simpl. by destruct (negb _).
  - simpl. by destruct (negb _).
Qed.

Lemma validateUser_shape user :
  Client.validateUser user = true →
  ∃ fields i, user = JObj fields ∧ prop user "id" = JStr i ∧
              prop_throw user "id" = Some (JStr i).
Proof.
  unfold Client.validateUser. intros [_ H]%andb_prop.
  destruct user as [| | | | | |fields]; try discriminate H.
  destruct (prop (JObj fields) "id") as [| | | |i| |] eqn:E; try discriminate H.
  exists fields, i. split; [done|]. split; [done|]. simpl. by rewrite <- E.
Qed.

Lemma same_string_true i : Client.same_string (JStr i) i = true.
Proof. simpl. by apply bool_decide_eq_true. Qed.

Lemma same_string_spec v i : Client.same_string v i = true ↔ v = JStr i.
Proof.
  destruct v; simpl; try (split; [done | by intros [=]]).
  rewrite bool_decide_eq_true. split; [by intros -> | by intros [=]].
Qed.

(** ** [userJoined] *)

Lemma findIndex_insert_found i user l n :
  prop_throw user "id" = Some (JStr i) →
  Client.findIndex i l = Some (Some n) →
  Client.findIndex i (<[n := user]> l) = Some (Some n).
Proof.
  intros Hu. revert n. induction l as [|x l IH]; intros n H; simpl in H; [done|].
  destruct (prop_throw x "id") as [xi|] eqn:Ex; [|done].
  destruct (Client.same_string xi i) eqn:Es.
  - injection H as <-. simpl. by rewrite Hu, same_string_true.
  - destruct (Client.findIndex i l) as [[m|]|] eqn:Ef; try done.
    injection H as <-. simpl. rewrite Ex, Es. by rewrite (IH m eq_refl).
Qed.

Lemma findIndex_app_absent i user l :
  prop_throw user "id" = Some (JStr i) →
  Client.findIndex i l = Some None →
  Client.findIndex i (l ++ [user]) = Some (Some (length l)).
Proof.
  intros Hu. induction l as [|x l IH]; intros H; simpl in *.
  - by rewrite Hu, same_string_true.
  - destruct (prop_throw x "id") as [xi|]; [|done].
    destruct (Client.same_string xi i); [done|].
    destruct (Client.findIndex i l) as [[m|]|]; try done.
    by rewrite IH.
Qed.

(** X12. A repeated [userJoined] is absorbed: applying the same event
    twice gives the store obtained by applying it once, whatever the
    store and the payload. *)
Theorem userJoined_idempotent (user : JsVal) (st : Client.Store) :
  Client.userJoined user (Client.userJoined user st) = Client.userJoined user st.
Proof.
  unfold Client.userJoined.
  destruct (Client.validateUser user) eqn:Hv; [|done]. cbn [negb].
  destruct (validateUser_shape user Hv) as (fields & i & -> & Hi & Ht).
  rewrite Hi.
  destruct (Client.findIndex i (Client.users (Client.worldState st)))
    as [[n|]|] eqn:Ef; cbn [Client.set_users Client.set_error Client.worldState Client.users].
  - rewrite (findIndex_insert_found i _ _ n Ht Ef).
    cbn [Client.set_users Client.worldState Client.users Client.objects
         Client.environment]. by rewrite list_insert_insert_eq.
  - rewrite (findIndex_app_absent i _ _ Ht Ef).
    cbn [Client.set_users Client.worldState Client.users Client.objects
         Client.environment].
    by rewrite insert_app_r_alt, Nat.sub_diag by done.
  - by rewrite Ef.
Qed.

(** ** The roster of known peers *)

Lemma filterOthers_roster uid l :
  roster_ok l →
  ∃ l', Client.filterOthers uid l = Some l' ∧ roster_ok l' ∧
        (JStr uid ∉ peer_ids l') ∧
        (∀ v, v ∈ peer_ids l' → v ∈ peer_ids l) ∧
        (JStr uid ∉ peer_ids l → l' = l).
Proof.
  unfold roster_ok, peer_ids. intros [Hv Hn]. induction l as [|x l IH].
  - exists []. split; [done|]. split; [by split; constructor|].
    split; [apply not_elem_of_nil|]. done.
  - apply Forall_cons in Hv as [Hx Hv]. rewrite fmap_cons in Hn.
    apply NoDup_cons in Hn as [Hxl Hn].
    destruct (IH Hv Hn) as (l' & Hf & [Hv' Hn'] & Hout & Hsub & Hid).
    destruct (validateUser_shape x Hx) as (fields & i & -> & Hi & Ht).
    rewrite Hi in Hxl. cbn [Client.filterOthers]. rewrite Ht, Hf.
    destruct (Client.same_string (JStr i) uid) eqn:Es; cbn [negb].
    + exists l'. split; [done|]. split; [done|]. split; [done|].
      split; [intros v Hin; rewrite fmap_cons; right; by apply Hsub|].
      intros Hnot. exfalso. apply Hnot. rewrite fmap_cons, Hi.
      apply same_string_spec in Es. injection Es as ->. by left.
    + exists (JObj fields :: l'). split; [done|]. rewrite !fmap_cons, Hi.
      split; [split; [by constructor|]|].
      { apply NoDup_cons. split; [|done]. intros Hin. by apply Hxl, Hsub. }
      split.
      { apply not_elem_of_cons. split; [|done].
        intros [= ->]. by rewrite same_string_true in Es. }
      split.
      { intros v. rewrite !elem_of_cons. intros [->|Hin]; [by left|].
        right. by apply Hsub. }
      intros Hnot. apply not_elem_of_cons in Hnot as [_ Hnot].
      by rewrite (Hid Hnot).
Qed.

Lemma findIndex_roster i l :
  Forall (fun user => Client.validateUser user = true) l →
  (Client.findIndex i l = Some None ∧ (JStr i ∉ peer_ids l)) ∨
  (∃ n, Client.findIndex i l = Some (Some n) ∧ peer_ids l !! n = Some (JStr i)).
Proof.
  unfold peer_ids. induction 1 as [|x l Hx Hl IH].
  - left. split; [done|apply not_elem_of_nil].
  - destruct (validateUser_shape x Hx) as (fields & xi & -> & Hi & Ht).
    cbn [Client.findIndex]. rewrite Ht, fmap_cons, Hi.
    destruct (Client.same_string (JStr xi) i) eqn:Es.
    + right. exists 0%nat. split; [done|].
      apply same_string_spec in Es. by rewrite Es.
    + destruct IH as [[-> Hnot]|(n & -> & Hn)].
      * left. split; [done|]. apply not_elem_of_cons.
        split; [|done]. intros [= ->]. by rewrite same_string_true in Es.
      * right. by exists (S n).
Qed.

Lemma assoc_set_assoc k k' x fields :
  assoc k (Client.set_assoc k' x fields) =
  if String.eqb k k' then x else assoc k fields.
Proof.
  induction fields as [|[k0 v] fields IH]; simpl.
  - by destruct (String.eqb k k').
  - destruct (String.eqb k' k0) eqn:E0; simpl.
    + apply String.eqb_eq in E0. subst k0.
      by destruct (String.eqb k k').
    + destruct (String.eqb k k0) eqn:E1; [|exact IH].
      apply String.eqb_eq in E1. subst k0.
      destruct (String.eqb k k') eqn:E2; [|done].
      apply String.eqb_eq in E2. subst k'. by rewrite String.eqb_refl in E0.
Qed.

Lemma with_position_valid user p :
  Client.validateUser user = true → Client.validatePosition p = true →
  Client.validateUser (Client.with_position user p) = true ∧
  prop (Client.with_position user p) "id" = prop user "id".
Proof.
  intros Hu Hp. destruct (validateUser_shape user Hu) as (fields & i & -> & _ & _).
  unfold Client.validateUser in *. cbn [Client.with_position truthy prop andb] in *.
  rewrite !assoc_set_assoc. cbn [String.eqb Ascii.eqb Bool.eqb].
  split; [|done].
  destruct (assoc "id" fields); try done.
  destruct (assoc "username" fields); try done.
  apply andb_prop in Hu as [Hu _]. by rewrite Hu, Hp.
Qed.

Lemma movePeer_roster uid p l :
  Client.validatePosition p = true → roster_ok l →
  ∃ l', Client.movePeer uid p l = Some l' ∧ roster_ok l' ∧
        peer_ids l' = peer_ids l ∧ length l' = length l.
Proof.
  unfold roster_ok, peer_ids. intros Hp [Hv Hn].
  assert (∃ l', Client.movePeer uid p l = Some l' ∧
                Forall (fun user => Client.validateUser user = true) l' ∧
                (fun user => prop user "id") <$> l' =
                  (fun user => prop user "id") <$> l ∧
                length l' = length l)
    as (l' & H1 & H2 & H3 & H4).
  { clear Hn. induction Hv as [|x l Hx Hl (l' & IH1 & IH2 & IH3 & IH4)].
    - by exists [].
    - destruct (validateUser_shape x Hx) as (fields & i & -> & Hi & Ht).
      cbn [Client.movePeer]. rewrite Ht, IH1. eexists. split; [done|].
      destruct (with_position_valid (JObj fields) p Hx Hp) as [Hw Hwi].
      destruct (Client.same_string (JStr i) uid).
      + split; [by constructor|]. rewrite !fmap_cons, Hwi, IH3.
        split; [done|simpl; by rewrite IH4].
      + split; [by constructor|]. rewrite !fmap_cons, IH3.
        split; [done|simpl; by rewrite IH4]. }
  exists l'. split; [done|]. split; [split; [done|by rewrite H3]|done].
Qed.

Lemma reduce_roster_ok st e :
  roster_ok (Client.users (Client.worldState st)) →
  roster_ok (Client.users (Client.worldState (Client.reduce st e))) ∧
  Client.error (Client.reduce st e) = Client.error st.
Proof.
  intros H. destruct e as [user|userId|data|message]; cbn [Client.reduce].
  - unfold Client.userJoined.
    destruct (Client.validateUser user) eqn:Hv; [|done]. cbn [negb].
    destruct (validateUser_shape user Hv) as (fields & i & -> & Hi & Ht).
    rewrite Hi. destruct H as [Hall Hnd].
    destruct (findIndex_roster i _ Hall) as [[-> Hnot]|(n & -> & Hn)];
      cbn [Client.set_users Client.worldState Client.users Client.error];
      (split; [|done]); unfold roster_ok, peer_ids in *.
    + split; [apply Forall_app; split; [done|by constructor]|].
      rewrite fmap_app, fmap_cons, Hi.
      apply NoDup_app. split; [done|]. split; [|apply NoDup_singleton].
      intros v Hin Hv'. apply list_elem_of_singleton in Hv' as ->. by apply Hnot.
    + split; [by apply Forall_insert|].
      rewrite list_fmap_insert, Hi. by rewrite list_insert_id.
  - destruct userId as [| | | |uid| |]; try done. cbn [Client.userLeft].
    destruct (filterOthers_roster uid _ H) as (l' & -> & Hok & _). done.
  - unfold Client.userMoved. destruct (negb (truthy data)); [done|].
    destruct (prop data "userId") as [| | | |uid| |]; try done.
    destruct (Client.validatePosition (prop data "position")) eqn:Hp; [|done].
    cbn [negb].
    destruct (movePeer_roster uid _ _ Hp H) as (l' & -> & Hok & _). done.
  - unfold Client.messageReceived, Client.addMessage.
    by destruct (Client.badMessage message).
Qed.

(** X13. Starting from a roster in which every peer passes
    [validateUser] and no id occurs twice (the empty roster, for one),
    any sequence of [userJoined], [userLeft], [userMoved] and
    [messageReceived] events, whatever their payloads, leaves a roster
    with the same two properties, and never sets the store's error. *)
Theorem roster_stays_valid_and_duplicate_free
    (events : list Client.PeerEvent) (st : Client.Store) :
  roster_ok (Client.users (Client.worldState st)) →
  roster_ok (Client.users (Client.worldState (Client.reduceAll events st))) ∧
  Client.error (Client.reduceAll events st) = Client.error st.
Proof.
  unfold Client.reduceAll. revert st.
  induction events as [|e events IH]; intros st H; [done|]. cbn [foldl].
  destruct (reduce_roster_ok st e H) as [H1 E1].
  destruct (IH _ H1) as [H2 E2]. split; [done|congruence].
Qed.

Lemma roster_stays_valid_and_duplicate_free_witness :
  let events :=
    [Client.UserJoined (peer "u1" "Alice" 1);
     Client.UserJoined (peer "u2" "Bob" 2);
     Client.UserJoined (peer "u1" "Alice" 5);
     Client.UserMoved (JObj [("userId", JStr (u "u2")); ("position", xyz 7 0 0 0)]%string);
     Client.UserLeft (JStr (u "u9"));
     Client.UserJoined (JObj [("id", JStr (u "u3"))]%string)] in
  let st := Client.reduceAll events blankStore in
  roster_ok (Client.users (Client.worldState blankStore)) ∧
  roster_ok (Client.users (Client.worldState st)) ∧
  peer_ids (Client.users (Client.worldState st)) = [JStr (u "u1"); JStr (u "u2")] ∧
  Client.error st = None.
Proof.
  cbv zeta.
  assert (roster_ok (Client.users (Client.worldState blankStore))) as H0.
  { split; [constructor|]. cbn. constructor. }
  split; [exact H0|].
  match goal with
  | |- roster_ok (Client.users (Client.worldState (Client.reduceAll ?ev _))) ∧ _ =>
      destruct (roster_stays_valid_and_duplicate_free ev blankStore H0) as [W1 W2]
  end.
  split; [exact W1|]. split; [vm_compute; reflexivity|exact W2].
Defined.

Lemma filterOthers_undo i user l :
  Forall (fun x => Client.validateUser x = true) l →
  (JStr i ∉ peer_ids l) →
  prop_throw user "id" = Some (JStr i) →
  Client.filterOthers i (l ++ [user]) = Some l.
Proof.
  unfold peer_ids. intros Hv Hn Hu. induction Hv as [|x l Hx Hl IH].
  - cbn [app Client.filterOthers]. by rewrite Hu, same_string_true.
  - destruct (validateUser_shape x Hx) as (fields & xi & -> & Hi & Ht).
    rewrite fmap_cons, Hi in Hn. apply not_elem_of_cons in Hn as [Hne Hn].
    cbn [app Client.filterOthers]. rewrite Ht, (IH Hn).
    destruct (Client.same_string (JStr xi) i) eqn:Es; [|done].
    apply same_string_spec in Es. by destruct Hne.
Qed.

Lemma set_users_same st : Client.set_users (Client.users (Client.worldState st)) st = st.
Proof. destruct st as [? ? ? ? ? ? [? ? ?] ? ? ? ?]. reflexivity. Qed.

Lemma set_users_twice l1 l2 st :
  Client.set_users l2 (Client.set_users l1 st) = Client.set_users l2 st.
Proof. reflexivity. Qed.

(** X14. On a valid, duplicate-free roster, announcing a peer that is
    not yet known and then removing it gives back the store one started
    from; and after a [userLeft] for an id, no known peer has that id. *)
Theorem userLeft_undoes_userJoined
    (user : JsVal) (i : jsstring) (st : Client.Store) :
  roster_ok (Client.users (Client.worldState st)) →
  (Client.validateUser user = true → prop user "id" = JStr i →
   JStr i ∉ peer_ids (Client.users (Client.worldState st)) →
   Client.userLeft (JStr i) (Client.userJoined user st) = st) ∧
  (JStr i ∉ peer_ids (Client.users (Client.worldState (Client.userLeft (JStr i) st)))).
Proof.
  intros H. split.
  - intros Hv Hi Hnot. unfold Client.userJoined. rewrite Hv, Hi. cbn [negb].
    destruct (validateUser_shape user Hv) as (fields & i' & -> & Hi' & Ht).
    assert (i' = i) as -> by congruence.
    destruct H as [Hall Hnd].
    destruct (findIndex_roster i _ Hall) as [[-> _]|(n & _ & Hn)].
    + cbn [Client.userLeft Client.set_users Client.worldState Client.users].
      rewrite (filterOthers_undo i _ _ Hall Hnot Ht).
      rewrite set_users_twice. apply set_users_same.
    + exfalso. apply Hnot. by apply list_elem_of_lookup_2 in Hn.
  - cbn [Client.userLeft].
    destruct (filterOthers_roster i _ H) as (l' & -> & _ & Hout & _). done.
Qed.

Lemma userLeft_undoes_userJoined_witness :
  let st := Client.reduceAll [Client.UserJoined (peer "u1" "Alice" 1)] blankStore in
  roster_ok (Client.users (Client.worldState st)) ∧
  Client.userLeft (JStr (u "u2")) (Client.userJoined (peer "u2" "Bob" 2) st) = st.
Proof.
  cbv zeta.
  assert (roster_ok (Client.users (Client.worldState blankStore))) as H0.
  { split; [constructor|]. cbn. constructor. }
  assert (roster_ok (Client.users (Client.worldState
            (Client.reduceAll [Client.UserJoined (peer "u1" "Alice" 1)] blankStore))))
    as H1.
  { split; [repeat constructor|]. vm_compute. repeat constructor.
    intros Hin. by apply elem_of_nil in Hin. }
  split; [exact H1|].
  apply (proj1 (userLeft_undoes_userJoined (peer "u2" "Bob" 2) (u "u2") _ H1));
    [reflexivity|reflexivity|].
  vm_compute. intros Hin. apply list_elem_of_singleton in Hin. discriminate Hin.
Defined.

(** ** Chat history *)

Lemma slice_last_fifo (l : list JsVal) (message : JsVal) :
  (length l ≤ 100)%nat →
  Client.slice_last 100 (l ++ [message]) =
    (if (length l <? 100)%nat then l else tail l) ++ [message].
Proof.
  intros H. unfold Client.slice_last. rewrite length_app. cbn [length].
  destruct (Nat.ltb_spec (length l) 100) as [Hlt|Hge].
  - by replace (length l + 1 - 100)%nat with 0%nat by lia.
  - replace (length l + 1 - 100)%nat with 1%nat by lia.
    destruct l as [|x l]; [cbn in Hge; lia|reflexivity].
Qed.

Lemma slice_last_length n (l : list JsVal) :
  (length (Client.slice_last n l) ≤ n)%nat.
Proof. unfold Client.slice_last. rewrite length_drop. lia. Qed.

Lemma messageReceived_messages message st :
  Client.messages (Client.messageReceived message st) =
    if Client.badMessage message then Client.messages st
    else Client.slice_last 100 (Client.messages st ++ [message]).
Proof.
  unfold Client.messageReceived, Client.addMessage.
  by destruct (Client.badMessage message).
Qed.

Lemma reduce_messages_bound st e :
  (length (Client.messages st) ≤ 100)%nat →
  (length (Client.messages (Client.reduce st e)) ≤ 100)%nat.
Proof.
  intros H. destruct e as [user|userId|data|message]; cbn [Client.reduce].
  - unfold Client.userJoined. by repeat case_match.
  - unfold Client.userLeft. by repeat case_match.
  - unfold Client.userMoved. by repeat case_match.
  - rewrite messageReceived_messages.
    destruct (Client.badMessage message); [done|apply slice_last_length].
Qed.

(** X15. The chat history never grows beyond 100 messages, whatever
    events arrive. A message that fails the guard of [messageReceived]
    leaves the store as it is; an accepted one is appended at the end,
    and when the history already holds 100 messages the oldest one is
    dropped. *)
Theorem chat_history_keeps_the_last_100
    (events : list Client.PeerEvent) (message : JsVal) (st : Client.Store) :
  (length (Client.messages st) ≤ 100)%nat →
  (length (Client.messages (Client.reduceAll events st)) ≤ 100)%nat ∧
  (Client.badMessage message = true → Client.messageReceived message st = st) ∧
  (Client.badMessage message = false →
   Client.messages (Client.messageReceived message st) =
     (if (length (Client.messages st) <? 100)%nat
      then Client.messages st else tail (Client.messages st)) ++ [message]).
Proof.
  intros H. split; [|split].
  - revert st H. unfold Client.reduceAll.
    induction events as [|e events IH]; intros st H; [done|].
    cbn [foldl]. by apply IH, reduce_messages_bound.
  - intros Hb. unfold Client.messageReceived. by rewrite Hb.
  - intros Hb. rewrite messageReceived_messages, Hb. by apply slice_last_fifo.
Qed.

Lemma chat_history_keeps_the_last_100_witness :
  let chat (i body : string) :=
    JObj [("id", JStr (u i)); ("message", JStr (u body))]%string in
  let full := Client.set_messages (replicate 100 (chat "m0" "old")) blankStore in
  (length (Client.messages full) ≤ 100)%nat ∧
  (length (Client.messages
     (Client.reduceAll [Client.MessageReceived (chat "m1" "one");
                        Client.MessageReceived (chat "m2" "two")] full)) ≤ 100)%nat ∧
  Client.messages (Client.messageReceived (chat "m1" "one") full) =
    replicate 99 (chat "m0" "old") ++ [chat "m1" "one"].
Proof.
  cbv zeta.
  match goal with
  | |- (length (Client.messages ?full) ≤ 100)%nat ∧
       (length (Client.messages (Client.reduceAll ?ev _)) ≤ 100)%nat ∧
       Client.messages (Client.messageReceived ?m _) = _ =>
      assert (length (Client.messages full) ≤ 100)%nat as H0
        by (vm_compute; lia);
      destruct (chat_history_keeps_the_last_100 ev m full H0) as (W1 & _ & W3)
  end.
  split; [exact H0|]. split; [exact W1|].
  rewrite W3 by (vm_compute; reflexivity). vm_compute. reflexivity.
Defined.

(** ** The server's events at the client *)

Lemma startsWith_elem (pat s : jsstring) (c : N) :
  Client.startsWith pat s = true → c ∈ pat → c ∈ s.
Proof.
  revert s. induction pat as [|p pat IH]; intros s H Hc.
  - by apply elem_of_nil in Hc.
  - destruct s as [|x s]; [discriminate H|]. cbn [Client.startsWith] in H.
    apply andb_prop in H as [Hp H]. apply N.eqb_eq in Hp as ->.
    apply elem_of_cons in Hc as [->|Hc]; [left|right; by apply IH].
Qed.

Lemma includes_elem (s pat : jsstring) (c : N) :
  Client.includes s pat = true → c ∈ pat → c ∈ s.
Proof.
  induction s as [|x s IH]; cbn [Client.includes]; intros H Hc.
  - rewrite orb_false_r in H. by apply (startsWith_elem pat).
  - apply orb_prop in H as [H|H]; [by apply (startsWith_elem pat)|].
    right. by apply IH.
Qed.

Lemma badMessage_messageReceivedData msg timestamp :
  Client.badMessage (messageReceivedData msg timestamp) =
    negb (Client.validateMessage (JStr (msg_message msg))).
Proof. reflexivity. Qed.

(** What the client's [validateMessage] still tests on a body the
    server has validated and sanitized. *)
Lemma client_validateMessage_sanitized (m : jsstring) :
  Server.validateMessage (JStr m) = true →
  Client.validateMessage (JStr (sanitizeString m)) =
    (0 <? length (trim (sanitizeString m)))%nat &&
    negb (Client.includes (sanitizeString m) (u "javascript:")).
Proof.
  unfold Server.validateMessage. destruct (negb (truthy (JStr m))); [done|].
  cbv zeta. intros [_ Hlen]%andb_prop. unfold Client.validateMessage.
  change CONFIG.MAX_MESSAGE_LENGTH with 1000%nat in Hlen. rewrite Hlen.
  destruct (Client.includes (sanitizeString m) (u "<script>")) eqn:Hs.
  - exfalso. assert (lt_sign ∈ sanitizeString m) as Hin.
    { apply (includes_elem _ _ _ Hs). vm_compute. left. }
    unfold sanitizeString in Hin. by destruct (strip_angle_clean _ _ Hin).
  - cbn [negb]. by rewrite !andb_true_r.
Qed.

(** X16. A chat message the server broadcasts is dropped by the
    receiving client exactly when its sanitized body is blank or
    contains [javascript:]; the client's length and [<script>] tests
    can never fail on it. *)
Theorem broadcast_message_at_the_client
    (s : sid) (now : Z) (rnd : jsstring) (data : JsVal) (st : State)
    (t : Target) (msg : ChatMessage) (timestamp : JsVal) :
  (t, EvMessageReceived msg) ∈ snd (sendMessage s now rnd data st) →
  Client.badMessage (messageReceivedData msg timestamp) =
    negb (0 <? length (trim (msg_message msg)))%nat ||
    Client.includes (msg_message msg) (u "javascript:").
Proof.
  intros Hin. rewrite badMessage_messageReceivedData.
  unfold sendMessage in Hin. destruct (sockets st !! s) as [k|];
    [|by apply elem_of_nil in Hin].
  cbv zeta in Hin.
  destruct (prop_throw data "message") as [m|];
    [|apply list_elem_of_singleton in Hin; discriminate Hin].
  destruct (validateMessage m) eqn:Hv; cbn [negb] in Hin;
    [|apply list_elem_of_singleton in Hin; discriminate Hin].
  destruct (truthy (currentRoom k)); [|by apply elem_of_nil in Hin].
  destruct m as [| | | |m| |]; try discriminate Hv.
  cbn [snd] in Hin. apply list_elem_of_singleton in Hin. injection Hin as -> ->.
  cbn [msg_message]. rewrite (client_validateMessage_sanitized m Hv).
  by rewrite negb_andb, negb_involutive.
Qed.

Lemma broadcast_message_at_the_client_witness :
  let data := JObj [("message", JStr (u "< >"))]%string in
  let msg := mkChatMessage (u "msg_1200_k3j9x0q2a") sA (JStr (u "Alice"))
               (u " ") 1200 (JStr (u "chat")) in
  snd (sendMessage sA 1200 (u "k3j9x0q2a") data aliceAndBob) =
    [(IoTo (JStr lobby), EvMessageReceived msg)] ∧
  Client.badMessage (messageReceivedData msg (JStr (u "1970-01-01T00:00:01.200Z"))) = true.
Proof.
  cbv zeta.
  assert (snd (sendMessage sA 1200 (u "k3j9x0q2a")
                 (JObj [("message", JStr (u "< >"))]%string) aliceAndBob) =
          [(IoTo (JStr lobby),
            EvMessageReceived
              (mkChatMessage (u "msg_1200_k3j9x0q2a") sA (JStr (u "Alice"))
                 (u " ") 1200 (JStr (u "chat"))))]) as Hout
    by (vm_compute; reflexivity).
  split; [exact Hout|].
  rewrite (broadcast_message_at_the_client sA 1200 (u "k3j9x0q2a")
             (JObj [("message", JStr (u "< >"))]%string) aliceAndBob
             (IoTo (JStr lobby))).
  - vm_compute. reflexivity.
  - rewrite Hout. left.
Defined.









(** ** The client's requests at the server *)

Lemma trimStart_head s c :
  head (trimStart s) = Some c → isWhiteSpace c = false.
Proof.
  induction s as [|x s IH]; cbn [trimStart]; [done|].
  destruct (isWhiteSpace x) eqn:E; [done|]. cbn [head]. by intros [= <-].
Qed.

Lemma trimStart_last s c :
  last s = Some c → isWhiteSpace c = false → last (trimStart s) = Some c.
Proof.
  intros Hl Hc. induction s as [|x s IH]; [done|].
  cbn [trimStart]. destruct (isWhiteSpace x) eqn:E; [|done].
  destruct s as [|y s]; [|by apply IH].
  cbn in Hl. injection Hl as ->. congruence.
Qed.

Lemma head_rev (s : jsstring) : head (rev s) = last s.
Proof. rewrite <- head_reverse. unfold reverse. by rewrite <- rev_alt. Qed.

Lemma last_rev (s : jsstring) : last (rev s) = head s.
Proof. rewrite <- (rev_involutive s) at 2. by rewrite head_rev. Qed.

Lemma trim_trim s : trim (trim s) = trim s.
Proof.
  apply trim_fixed; unfold trim, trimEnd; intros c.
  - rewrite head_rev. destruct (trimStart s) as [|x t] eqn:E; [done|].
    assert (isWhiteSpace x = false) as Hx by (apply (trimStart_head s); by rewrite E).
    rewrite (trimStart_last (rev (x :: t)) x); [congruence| |done].
    by rewrite last_rev.
  - rewrite last_rev. apply trimStart_head.
Qed.

Lemma strip_angle_empty s : only_angles s → strip_angle s = [].
Proof.
  unfold only_angles, strip_angle. induction 1 as [|c s [->| ->] _ IH]; [done| |];
    cbn [List.filter]; by rewrite IH.
Qed.

Lemma strip_angle_nonempty s : some_text s → (0 < length (strip_angle s))%nat.
Proof.
  unfold some_text, strip_angle. induction 1 as [c s [N1 N2]|c s _ IH].
  - cbn [List.filter].
    assert ((c =? lt_sign)%N = false) as -> by by apply N.eqb_neq.
    assert ((c =? gt_sign)%N = false) as -> by by apply N.eqb_neq.
    cbn. lia.
  - cbn [List.filter]. destruct (negb _); cbn [length]; lia.
Qed.

(** What the server's test of a text amounts to once the client has
    trimmed it and found it neither blank nor longer than [limit]. *)
Lemma sanitized_length (s : jsstring) (limit : nat) :
  (length s ≤ limit)%nat →
  sanitizeString (trim s) = strip_angle (trim s) ∧
  (only_angles (trim s) →
   (0 <? length (sanitizeString (trim s)))%nat = false) ∧
  (some_text (trim s) →
   (0 <? length (sanitizeString (trim s)))%nat &&
   (length (sanitizeString (trim s)) <=? limit)%nat = true).
Proof.
  intros Hl. unfold sanitizeString. rewrite trim_trim. split; [done|]. split.
  - intros H. by rewrite (strip_angle_empty _ H).
  - intros H. apply andb_true_intro. split.
    + by apply Nat.ltb_lt, strip_angle_nonempty.
    + apply Nat.leb_le. etrans; [apply strip_angle_length|].
      etrans; [apply trim_length|done].
Qed.

(** X18. A chat text that the client's [sendMessage] emits, which it does
    only for a text that passes its own check and only trimmed, is
    answered by the server with ['Invalid message'] when the trimmed text
    consists of [<] and [>] only; otherwise a sender that has a current
    room gets it broadcast to that room, stripped of every [<] and [>]. *)
Theorem client_message_at_the_server
    (m : jsstring) (type : JsVal) (now lastMessageTime : Z) (store : Client.Store)
    (result : Z * Client.Store) (data : JsVal)
    (s : sid) (serverNow : Z) (rnd : jsstring) (st : State) (k : Socket) :
  Client.sendMessage (JStr m) type now true lastMessageTime store
    = (result, Some data) →
  sockets st !! s = Some k →
  let out := snd (sendMessage s serverNow rnd data st) in
  Client.validateMessage (JStr m) = true ∧
  prop data "message" = JStr (trim m) ∧
  (only_angles (trim m) → out = [(ToSocket s, EvError "Invalid message")]) ∧
  (some_text (trim m) → truthy (currentRoom k) = true →
   ∃ msg, out = [(IoTo (currentRoom k), EvMessageReceived msg)] ∧
          msg_message msg = strip_angle (trim m)).
Proof.
  intros Hc Hk. unfold Client.sendMessage in Hc.
  destruct (Client.validateMessage (JStr m)) eqn:Hv; cbn [negb] in Hc;
    [|discriminate Hc].
  destruct (_ <? _); [discriminate Hc|]. injection Hc as _ <-.
  cbv zeta. split; [done|]. split; [done|].
  unfold Client.validateMessage in Hv.
  apply andb_prop in Hv as [Hv _]. apply andb_prop in Hv as [Hv _].
  apply andb_prop in Hv as [Hne Hlen].
  apply Nat.ltb_lt in Hne. apply Nat.leb_le in Hlen.
  destruct (sanitized_length m 1000 Hlen) as (Hsan & Hbad & Hgood).
  assert (truthy (JStr (trim m)) = true) as Ht.
  { cbn [truthy]. destruct (trim m); [cbn in Hne; lia|done]. }
  unfold sendMessage. rewrite Hk. cbv zeta.
  change (prop_throw (JObj [("message", JStr (trim m)); ("type", ?t)]%string) "message")
    with (Some (JStr (trim m))).
  unfold validateMessage. rewrite Ht. cbn [negb]. cbv zeta. split.
  - intros H. by rewrite (Hbad H).
  - intros H Hr.
    change CONFIG.MAX_MESSAGE_LENGTH with 1000%nat. rewrite (Hgood H), Hr.
    cbn [negb snd]. eexists. split; [reflexivity|]. cbn [msg_message]. exact Hsan.
Qed.

Lemma client_message_at_the_server_witness :
  let data := JObj [("message", JStr (u "<>")); ("type", JStr (u "chat"))]%string in
  Client.sendMessage (JStr (u " <> ")) JUndefined 5000 true 0 blankStore
    = ((5000, blankStore), Some data) ∧
  sockets aliceAndBob !! sA
    = Some (mkSocket (u "10.0.0.1") (JStr (u "Alice")) defaultAvatar defaultPosition
              (JStr lobby) 0) ∧
  snd (sendMessage sA 1200 (u "k3j9x0q2a") data aliceAndBob)
    = [(ToSocket sA, EvError "Invalid message")].
Proof.
  cbv zeta.
  assert (Client.sendMessage (JStr (u " <> ")) JUndefined 5000 true 0 blankStore
          = ((5000, blankStore),
             Some (JObj [("message", JStr (u "<>")); ("type", JStr (u "chat"))]%string)))
    as Hc by (vm_compute; reflexivity).
  assert (sockets aliceAndBob !! sA
          = Some (mkSocket (u "10.0.0.1") (JStr (u "Alice")) defaultAvatar
                    defaultPosition (JStr lobby) 0)) as Hk
    by (vm_compute; reflexivity).
  split; [exact Hc|]. split; [exact Hk|].
  destruct (client_message_at_the_server _ _ _ _ _ _ _ sA 1200 (u "k3j9x0q2a")
              aliceAndBob _ Hc Hk) as (_ & _ & W & _).
  apply W. vm_compute.
  constructor; [by left|]. constructor; [by right|]. constructor.
Defined.



(** X20. A room id that the client's [joinRoom] emits, which it does only
    for a string that is not blank and only trimmed, is answered by the
    server with ['Invalid room ID'] when the trimmed id consists of [<]
    and [>] only or is, stripped of them, longer than 100 code units;
    otherwise the sender ends up in the room named by the trimmed id
    stripped of every [<] and [>]. *)
Theorem client_room_at_the_server
    (r : jsstring) (store store' : Client.Store) (roomId : JsVal)
    (s : sid) (now : Z) (st : State) (k : Socket) :
  Client.joinRoom (JStr r) true store = (store', Some roomId) →
  sockets st !! s = Some k →
  roomId = JStr (trim r) ∧ store' = store ∧
  (only_angles (trim r) ∨ (100 < length (strip_angle (trim r)))%nat →
   joinRoom s now roomId st =
     (updateActivity s now st, [(ToSocket s, EvError "Invalid room ID")])) ∧
  (some_text (trim r) → (length (strip_angle (trim r)) ≤ 100)%nat →
   inRoom (fst (joinRoom s now roomId st)) s (strip_angle (trim r))).
Proof.
  intros Hc Hk. unfold Client.joinRoom in Hc.
  destruct (negb (truthy (JStr r)) || (length (trim r) =? 0)%nat) eqn:Hg;
    [discriminate Hc|].
  injection Hc as <- <-. split; [done|]. split; [done|].
  apply orb_false_elim in Hg as [_ Hne]. apply Nat.eqb_neq in Hne.
  assert (truthy (JStr (trim r)) = true) as Ht.
  { cbn [truthy]. by destruct (trim r). }
  assert (sanitizeString (trim r) = strip_angle (trim r)) as Hsan.
  { unfold sanitizeString. by rewrite trim_trim. }
  split.
  - intros Hbad.
    assert (validateRoomId (JStr (trim r)) = false) as Hv.
    { unfold validateRoomId. rewrite Ht. cbn [negb]. cbv zeta. rewrite Hsan.
      destruct Hbad as [H|H].
      - by rewrite (strip_angle_empty _ H).
      - apply andb_false_intro2, Nat.leb_gt.
        by change CONFIG.MAX_ROOM_NAME_LENGTH with 100%nat. }
    unfold joinRoom. by rewrite Hk, Hv.
  - intros Htext Hlen.
    assert (validateRoomId (JStr (trim r)) = true) as Hv.
    { unfold validateRoomId. rewrite Ht. cbn [negb]. cbv zeta. rewrite Hsan.
      apply andb_true_intro. split.
      - by apply Nat.ltb_lt, strip_angle_nonempty.
      - by apply Nat.leb_le. }
    rewrite <- Hsan. by apply (joinRoom_inRoom s now (trim r) st k).
Qed.

Lemma client_room_at_the_server_witness :
  Client.joinRoom (JStr (u " <plaza> ")) true blankStore
    = (blankStore, Some (JStr (u "<plaza>"))) ∧
  sockets connectedA !! sA = Some (newSocket (u "10.0.0.1")) ∧
  inRoom (fst (joinRoom sA 1000 (JStr (u "<plaza>")) connectedA)) sA (u "plaza").
Proof.
  assert (Client.joinRoom (JStr (u " <plaza> ")) true blankStore
          = (blankStore, Some (JStr (u "<plaza>")))) as Hc
    by (vm_compute; reflexivity).
  assert (sockets connectedA !! sA = Some (newSocket (u "10.0.0.1"))) as Hk
    by (vm_compute; reflexivity).
  split; [exact Hc|]. split; [exact Hk|].
  destruct (client_room_at_the_server _ _ _ _ sA 1000 connectedA _ Hc Hk)
    as (_ & _ & _ & W).
  apply W.
  - vm_compute. right. constructor. split; intros E; discriminate E.
  - vm_compute. lia.
Defined.
